(** * Verification of the kernel-generator test utilities and the
      cosimulation monitors of tvb-root.

    The development embeds

    - [MakoUtilMix] of [modelir_test.py]: [_insert_line_numbers],
      [_render_template], [_build_py_func] and [_build_cu_func];
    - the tolerance check [TestSimODE._check_match], the reference flow
      [TestPyCUDABasics.flow] with the inline template of
      [TestMako.test_template], and the reference coupling evaluator
      [TestCoupling._eval_cfun_no_delay];
    - [CosimMonitor.get_sample] and the [sample] methods of
      [cosim_monitors.py].

    Python [str] is [string], Python [int] is [Z] or [nat] (line numbers and
    indices), NumPy arrays are nested lists.  Array entries are exact
    rationals ([Q]): the arithmetic below is the arithmetic of the
    expressions in the source, without rounding. *)

From Stdlib Require Import String Ascii List Arith ZArith QArith Qabs Lia Bool.
From Stdlib Require Import DecimalString DecimalNat Decimal.
From Stdlib Require Import Morphisms Setoid Sorted.
Import ListNotations.

Close Scope Q_scope.
Close Scope Z_scope.

(* ================================================================== *)
(** ** Line numbering: [MakoUtilMix._insert_line_numbers]             *)
(* ================================================================== *)

Module LineNumbers.

Local Open Scope string_scope.

(** The newline and tab characters of the format ['%03d\t%s'] and of
    [split('\n')], by their ASCII codes. *)
Definition nl : ascii := ascii_of_nat 10.
Definition tab : ascii := ascii_of_nat 9.

(** [source.split('\n')]: the pieces between newlines; the result is never
    empty and [""] splits to [[""]]. *)
Fixpoint split_nl (s : string) : list string :=
  match s with
  | EmptyString => [EmptyString]
  | String c s' =>
      if Ascii.eqb c nl then EmptyString :: split_nl s'
      else match split_nl s' with
           | l :: ls => String c l :: ls
           | [] => [String c EmptyString]
           end
  end.

(** ['\n'.join(lines)]. *)
Fixpoint join_nl (lines : list string) : string :=
  match lines with
  | [] => EmptyString
  | [l] => l
  | l :: ls => l ++ String nl (join_nl ls)
  end.

(** [str(nu)] for a non-negative integer: its decimal numeral. *)
Definition decimal (n : nat) : string := NilZero.string_of_uint (Nat.to_uint n).

(** [n] copies of the character ['0']. *)
Fixpoint zeros (n : nat) : string :=
  match n with
  | O => EmptyString
  | S n' => String "0"%char (zeros n')
  end.

(** ['%03d' % nu]: the decimal numeral, left-padded with ['0'] up to the
    minimum field width 3. *)
Definition fmt_03d (n : nat) : string :=
  let d := decimal n in zeros (3 - String.length d) ++ d.

(** ['%03d\t%s' % (nu, li)]. *)
Definition fmt_line (p : nat * string) : string :=
  fmt_03d (fst p) ++ String tab (snd p).

(** [_insert_line_numbers(source)]. *)
Definition _insert_line_numbers (source : string) : string :=
  let lines := split_nl source in
  let numbers := seq 1 (List.length lines) in
  let nu_lines := map fmt_line (combine numbers lines) in
  join_nl nu_lines.

(** Line [k] (1-based) of a text. *)
Definition line (k : nat) (s : string) : string :=
  nth (k - 1) (split_nl s) EmptyString.

Definition line_count (s : string) : nat := List.length (split_nl s).

(** A string without a newline character. *)
Fixpoint no_nl (s : string) : Prop :=
  match s with
  | EmptyString => True
  | String c s' => c <> nl /\ no_nl s'
  end.

(** The value of a string of decimal digits, leading zeros allowed
    ([int(s)] in Python); [None] when a character is not a digit. *)
Definition digits_value (s : string) : option nat :=
  option_map Nat.of_uint (NilEmpty.uint_of_string s).

(** The prefix a line would carry if its number were written with exactly
    three decimal digits [d2 d1 d0]. *)
Definition digit_char (d : nat) : ascii := ascii_of_nat (48 + d).

Definition three_digit_numbered (k : nat) (li out : string) : Prop :=
  exists d2 d1 d0 : nat,
    d2 < 10 /\ d1 < 10 /\ d0 < 10 /\ k = 100 * d2 + 10 * d1 + d0 /\
    out = String (digit_char d2)
            (String (digit_char d1) (String (digit_char d0) (String tab li))).

(** A text of [n] newline characters: it has [n + 1] empty lines. *)
Fixpoint newlines (n : nat) : string :=
  match n with
  | O => EmptyString
  | S n' => String nl (newlines n')
  end.

(** *** Splitting and joining *)

Lemma split_nl_nonempty s : split_nl s <> [].
Proof.
  induction s as [|c s IH]; simpl; [discriminate|].
  destruct (Ascii.eqb c nl); [discriminate|].
  destruct (split_nl s); discriminate.
Qed.

Lemma split_nl_no_nl s : Forall no_nl (split_nl s).
Proof.
  induction s as [|c s IH]; simpl.
  - repeat constructor.
  - destruct (Ascii.eqb_spec c nl) as [->|Hc].
    + constructor; [exact I | exact IH].
    + destruct (split_nl s) as [|l ls].
      * repeat constructor. exact Hc.
      * inversion IH; subst. constructor; [split; assumption | assumption].
Qed.

Lemma split_nl_line l : no_nl l -> split_nl l = [l].
Proof.
  induction l as [|c l IH]; simpl; [reflexivity|].
  intros [Hc Hl]. destruct (Ascii.eqb_spec c nl) as [E|_]; [contradiction|].
  rewrite (IH Hl). reflexivity.
Qed.

Lemma split_nl_app l rest :
  no_nl l -> split_nl (l ++ String nl rest) = l :: split_nl rest.
Proof.
  induction l as [|c l IH]; simpl.
  - intros _. reflexivity.
  - intros [Hc Hl]. destruct (Ascii.eqb_spec c nl) as [E|_]; [contradiction|].
    rewrite (IH Hl). reflexivity.
Qed.

Lemma split_join ls : ls <> [] -> Forall no_nl ls -> split_nl (join_nl ls) = ls.
Proof.
  induction ls as [|l ls IH]; [congruence|].
  intros _ H. inversion H as [|? ? Hl Hls]; subst.
  destruct ls as [|l' ls'].
  - simpl. apply split_nl_line, Hl.
  - change (join_nl (l :: l' :: ls')) with (l ++ String nl (join_nl (l' :: ls'))).
    rewrite (split_nl_app _ _ Hl), IH; [reflexivity | discriminate | assumption].
Qed.

Lemma no_nl_app a b : no_nl a -> no_nl b -> no_nl (a ++ b).
Proof.
  induction a as [|c a IH]; simpl; [tauto|].
  intros [Hc Ha] Hb. split; [assumption | apply IH; assumption].
Qed.

(** *** The numeral *)

Lemma no_nl_string_of_uint d : no_nl (NilEmpty.string_of_uint d).
Proof.
  induction d; simpl; try exact I; (split; [discriminate | assumption]).
Qed.

Lemma no_nl_decimal n : no_nl (decimal n).
Proof.
  unfold decimal, NilZero.string_of_uint.
  destruct (Nat.to_uint n); try apply no_nl_string_of_uint.
  simpl. split; [discriminate | exact I].
Qed.

Lemma no_nl_zeros n : no_nl (zeros n).
Proof. induction n; simpl; [exact I | split; [discriminate | assumption]]. Qed.

Lemma no_nl_fmt_line p : no_nl (snd p) -> no_nl (fmt_line p).
Proof.
  intros H. unfold fmt_line, fmt_03d.
  apply no_nl_app; [apply no_nl_app; [apply no_nl_zeros | apply no_nl_decimal]|].
  simpl. split; [discriminate | assumption].
Qed.

Lemma uint_of_string_zeros m s :
  NilEmpty.uint_of_string (zeros m ++ s) =
  option_map (Nat.iter m D0) (NilEmpty.uint_of_string s).
Proof.
  induction m as [|m IH]; simpl.
  - destruct (NilEmpty.uint_of_string s); reflexivity.
  - rewrite IH. destruct (NilEmpty.uint_of_string s); reflexivity.
Qed.

Lemma of_uint_iter_D0 m d : Nat.of_uint (Nat.iter m D0 d) = Nat.of_uint d.
Proof. induction m as [|m IH]; simpl; [reflexivity | exact IH]. Qed.

Lemma digits_value_decimal n : digits_value (decimal n) = Some n.
Proof.
  unfold digits_value, decimal, NilZero.string_of_uint.
  pose proof (DecimalNat.Unsigned.of_to n) as Hn.
  destruct (Nat.to_uint n) as [|d|d|d|d|d|d|d|d|d|d] eqn:E;
    try (rewrite NilEmpty.usu; simpl; f_equal; exact Hn).
  simpl. f_equal. exact Hn.
Qed.

Lemma digits_value_fmt_03d n : digits_value (fmt_03d n) = Some n.
Proof.
  unfold fmt_03d. cbv zeta.
  pose proof (digits_value_decimal n) as H. unfold digits_value in *.
  rewrite uint_of_string_zeros.
  destruct (NilEmpty.uint_of_string (decimal n)) as [d|]; [|discriminate].
  simpl in *. rewrite of_uint_iter_D0. exact H.
Qed.

Lemma length_zeros m : String.length (zeros m) = m.
Proof. induction m; simpl; congruence. Qed.

Lemma length_app (a b : string) :
  String.length (a ++ b) = String.length a + String.length b.
Proof. induction a; simpl; congruence. Qed.

Lemma length_fmt_03d n : 3 <= String.length (fmt_03d n).
Proof. unfold fmt_03d. cbv zeta. rewrite length_app, length_zeros. lia. Qed.

(** Below 1000 the field is exactly the three digits of the number; the
    thousand cases are checked by evaluation. *)
Definition three_digits (k : nat) : string :=
  String (digit_char (k / 100))
    (String (digit_char ((k / 10) mod 10))
       (String (digit_char (k mod 10)) EmptyString)).

Lemma fmt_03d_below_1000 k : k <= 999 -> fmt_03d k = three_digits k.
Proof.
  intros Hk.
  assert (Hall : forallb (fun k => String.eqb (fmt_03d k) (three_digits k))
                   (seq 0 1000) = true) by (vm_compute; reflexivity).
  rewrite forallb_forall in Hall.
  apply String.eqb_eq, Hall, in_seq. lia.
Qed.

(** *** Lines of the numbered text *)

Lemma numbered_lines source :
  split_nl (_insert_line_numbers source) =
  map fmt_line (combine (seq 1 (List.length (split_nl source))) (split_nl source)).
Proof.
  unfold _insert_line_numbers. cbv zeta. apply split_join.
  - pose proof (split_nl_nonempty source) as Hne.
    destruct (split_nl source); [congruence | discriminate].
  - apply Forall_forall. intros x Hx. apply in_map_iff in Hx.
    destruct Hx as [[n li] [<- Hin]]. apply no_nl_fmt_line. simpl.
    apply in_combine_r in Hin.
    pose proof (split_nl_no_nl source) as Hall.
    rewrite Forall_forall in Hall. apply Hall, Hin.
Qed.

Lemma nth_combine_seq (ls : list string) i a :
  i < List.length ls ->
  nth i (combine (seq a (List.length ls)) ls) (0, EmptyString) =
  (a + i, nth i ls EmptyString).
Proof.
  revert i a. induction ls as [|l ls IH]; simpl; intros i a Hi; [lia|].
  destruct i as [|i]; [f_equal; lia|].
  rewrite IH by lia. f_equal. lia.
Qed.

Lemma numbered_line source k :
  1 <= k <= line_count source ->
  line k (_insert_line_numbers source) = fmt_03d k ++ String tab (line k source).
Proof.
  unfold line, line_count. intros Hk. rewrite numbered_lines.
  assert (Hlen : List.length (combine (seq 1 (List.length (split_nl source)))
                                (split_nl source)) = List.length (split_nl source)).
  { rewrite length_combine, length_seq. lia. }
  rewrite (nth_indep _ EmptyString (fmt_line (0, EmptyString)))
    by (rewrite length_map, Hlen; lia).
  rewrite map_nth, nth_combine_seq by lia.
  unfold fmt_line. simpl. replace (S (k - 1)) with k by lia. reflexivity.
Qed.

(** *** The numbered text, line by line *)

(** C8, as amended.  The numbered text has exactly as many lines as the
    input, and line [k] (1-based) is the decimal numeral of [k], left-padded
    with zeros to a width of at least three characters, then a tab, then the
    [k]-th input line unchanged.  The numeral has exactly the three digits of
    [k] for every [k <= 999]; from line 1000 on it is wider. *)
Theorem insert_line_numbers_lines (source : string) :
  line_count (_insert_line_numbers source) = line_count source /\
  forall k, 1 <= k <= line_count source ->
    line k (_insert_line_numbers source) =
      fmt_03d k ++ String tab (line k source) /\
    digits_value (fmt_03d k) = Some k /\
    3 <= String.length (fmt_03d k) /\
    (k <= 999 ->
     three_digit_numbered k (line k source)
       (line k (_insert_line_numbers source))).
Proof.
  split.
  - unfold line_count. rewrite numbered_lines, length_map, length_combine, length_seq.
    lia.
  - intros k Hk. pose proof (numbered_line source k Hk) as Hline.
    repeat split.
    + exact Hline.
    + apply digits_value_fmt_03d.
    + apply length_fmt_03d.
    + intros H999. rewrite Hline, (fmt_03d_below_1000 k H999).
      exists (k / 100), ((k / 10) mod 10), (k mod 10).
      repeat split.
      * apply Nat.Div0.div_lt_upper_bound. lia.
      * apply Nat.mod_upper_bound. lia.
      * apply Nat.mod_upper_bound. lia.
      * pose proof (Nat.div_mod_eq k 10) as H1.
        pose proof (Nat.div_mod_eq (k / 10) 10) as H2.
        assert (H3 : k / 10 / 10 = k / 100)
          by (rewrite Nat.Div0.div_div; reflexivity).
        lia.
Qed.

(** The two-line text ["a\nb"]. *)
Definition two_lines : string :=
  String "a"%char (String nl (String "b"%char EmptyString)).

Lemma insert_line_numbers_lines_witness :
  1 <= 2 <= line_count two_lines /\
  line 2 (_insert_line_numbers two_lines) = "002" ++ String tab "b".
Proof.
  assert (Hk : 1 <= 2 <= line_count two_lines) by (vm_compute; lia).
  split; [exact Hk|].
  rewrite (proj1 (proj2 (insert_line_numbers_lines two_lines) 2 Hk)).
  reflexivity.
Defined.

(** C8 as stated asks for a three-digit numeral on every line.  A text of
    999 newline characters has 1000 (empty) lines, and its line 1000 is
    numbered ["1000"]: four digits. *)
Lemma three_digit_numeral_fails_at_line_1000 :
  line_count (newlines 999) = 1000 /\
  line 1000 (_insert_line_numbers (newlines 999)) = "1000" ++ String tab "" /\
  ~ three_digit_numbered 1000 (line 1000 (newlines 999))
      (line 1000 (_insert_line_numbers (newlines 999))).
Proof.
  split; [vm_compute; reflexivity|].
  split; [vm_compute; reflexivity|].
  intros (d2 & d1 & d0 & H2 & H1 & H0 & Hk & _). lia.
Qed.

(** *** Further properties of the numbering *)

(** The sum over the lines of their lengths, each counted with its line
    terminator. *)
Fixpoint total_length (ls : list string) : nat :=
  match ls with
  | [] => 0
  | l :: ls' => S (String.length l) + total_length ls'
  end.

Lemma join_split s : join_nl (split_nl s) = s.
Proof.
  induction s as [|c s IH]; simpl; [reflexivity|].
  pose proof (split_nl_nonempty s) as Hne.
  destruct (Ascii.eqb_spec c nl) as [->|_].
  - destruct (split_nl s) as [|l ls]; [congruence|].
    change (join_nl (EmptyString :: l :: ls))
      with (EmptyString ++ String nl (join_nl (l :: ls))).
    rewrite IH. reflexivity.
  - destruct (split_nl s) as [|l ls]; [congruence|].
    destruct ls as [|l' ls]; simpl in *; rewrite IH; reflexivity.
Qed.

Lemma total_length_join ls : ls <> [] -> S (String.length (join_nl ls)) = total_length ls.
Proof.
  induction ls as [|l ls IH]; [congruence|]. intros _.
  destruct ls as [|l' ls].
  - simpl. lia.
  - assert (IH' := IH ltac:(discriminate)).
    change (join_nl (l :: l' :: ls)) with (l ++ String nl (join_nl (l' :: ls))).
    change (total_length (l :: l' :: ls))
      with (S (String.length l) + total_length (l' :: ls)).
    set (j := join_nl (l' :: ls)) in *.
    rewrite length_app.
    change (String.length (String nl j)) with (S (String.length j)). lia.
Qed.

Lemma total_length_split s : total_length (split_nl s) = S (String.length s).
Proof.
  rewrite <- (total_length_join (split_nl s) (split_nl_nonempty s)), join_split.
  reflexivity.
Qed.

Lemma length_three_digits k : String.length (three_digits k) = 3.
Proof. reflexivity. Qed.

Lemma total_length_numbered ls a :
  total_length ls + 4 * List.length ls <=
    total_length (map fmt_line (combine (seq a (List.length ls)) ls)) /\
  (a + List.length ls <= 1000 ->
   total_length (map fmt_line (combine (seq a (List.length ls)) ls)) =
     total_length ls + 4 * List.length ls).
Proof.
  revert a. induction ls as [|l ls IH]; intros a; simpl.
  - split; lia.
  - destruct (IH (S a)) as [Hle Heq].
    unfold fmt_line at 1 3. simpl fst. simpl snd.
    rewrite length_app. simpl String.length.
    pose proof (length_fmt_03d a) as H3. split; [lia|].
    intros Ha. rewrite Heq by lia.
    rewrite (fmt_03d_below_1000 a) by lia. rewrite length_three_digits. lia.
Qed.

Lemma append_cancel (p a b : string) : (p ++ a = p ++ b)%string -> a = b.
Proof. induction p as [|c p IH]; simpl; intros H; [exact H | injection H as H; auto]. Qed.

Lemma numbered_inj ls1 ls2 a :
  map fmt_line (combine (seq a (List.length ls1)) ls1) =
  map fmt_line (combine (seq a (List.length ls2)) ls2) ->
  ls1 = ls2.
Proof.
  revert ls2 a. induction ls1 as [|l1 ls1 IH]; intros [|l2 ls2] a; simpl;
    try discriminate; [reflexivity|].
  intros H. injection H as Hhead Htail.
  unfold fmt_line in Hhead. simpl in Hhead.
  apply append_cancel in Hhead. injection Hhead as ->.
  f_equal. apply (IH _ (S a)), Htail.
Qed.

(** Two different sources never have the same numbered text. *)
Theorem insert_line_numbers_injective (source1 source2 : string) :
  _insert_line_numbers source1 = _insert_line_numbers source2 ->
  source1 = source2.
Proof.
  intros H. apply (f_equal split_nl) in H. rewrite !numbered_lines in H.
  apply numbered_inj in H.
  rewrite <- (join_split source1), <- (join_split source2), H. reflexivity.
Qed.

Lemma insert_line_numbers_injective_witness :
  _insert_line_numbers two_lines = _insert_line_numbers two_lines /\
  two_lines = two_lines.
Proof.
  split; [reflexivity|].
  exact (insert_line_numbers_injective two_lines two_lines eq_refl).
Defined.

(** The numbering adds at least four characters to every line, and exactly
    four to every line of a text of at most 999 lines. *)
Theorem insert_line_numbers_length (source : string) :
  String.length source + 4 * line_count source <=
    String.length (_insert_line_numbers source) /\
  (line_count source <= 999 ->
   String.length (_insert_line_numbers source) =
     String.length source + 4 * line_count source).
Proof.
  pose proof (total_length_split (_insert_line_numbers source)) as Hout.
  pose proof (total_length_split source) as Hsrc.
  rewrite numbered_lines in Hout.
  destruct (total_length_numbered (split_nl source) 1) as [Hle Heq].
  unfold line_count. split; [lia|].
  intros Hn. rewrite Heq in Hout by lia. lia.
Qed.

Lemma insert_line_numbers_length_witness :
  line_count two_lines <= 999 /\
  String.length (_insert_line_numbers two_lines) =
    String.length two_lines + 4 * line_count two_lines.
Proof.
  assert (H : line_count two_lines <= 999) by (vm_compute; lia).
  split; [exact H|].
  exact (proj2 (insert_line_numbers_length two_lines) H).
Defined.

(** A source without a newline, the empty source included, is numbered as
    the single line ["001"], a tab, and the source. *)
Theorem insert_line_numbers_single_line (source : string) :
  no_nl source ->
  _insert_line_numbers source = "001" ++ String tab source.
Proof.
  intros H. unfold _insert_line_numbers. cbv zeta.
  rewrite (split_nl_line source H). reflexivity.
Qed.

Lemma insert_line_numbers_single_line_witness :
  no_nl "" /\ _insert_line_numbers "" = "001" ++ String tab "".
Proof.
  split; [exact I|].
  exact (insert_line_numbers_single_line "" I).
Defined.


End LineNumbers.

(* ================================================================== *)
(** ** Cosimulation monitors: [cosim_monitors.py]                     *)
(* ================================================================== *)

Module CosimMonitors.

Local Open Scope Z_scope.

(** [range(a, b)] over Python integers. *)
Definition py_range (a b : Z) : list Z :=
  map (fun i => a + Z.of_nat i) (seq 0 (Z.to_nat (b - a))).

Lemma seq_shift_add (len k : nat) :
  map (fun i => (k + i)%nat) (seq 0 len) = seq k len.
Proof.
  revert k. induction len as [|len IH]; intros k; simpl; [reflexivity|].
  f_equal; [lia|]. rewrite <- seq_shift, map_map.
  rewrite <- (IH (S k)). apply map_ext. intros i. lia.
Qed.

Lemma py_range_length a b : 0 <= b - a -> Z.of_nat (length (py_range a b)) = b - a.
Proof. intros H. unfold py_range. rewrite length_map, length_seq. lia. Qed.

Lemma py_range_In a b x : In x (py_range a b) <-> a <= x < b.
Proof.
  unfold py_range. rewrite in_map_iff. split.
  - intros [i [<- Hi]]. apply in_seq in Hi. lia.
  - intros H. exists (Z.to_nat (x - a)). split; [lia|]. apply in_seq. lia.
Qed.

Lemma py_range_sorted a b : StronglySorted Z.lt (py_range a b).
Proof.
  unfold py_range. generalize (Z.to_nat (b - a)) as n. intros n.
  generalize 0%nat as k. induction n as [|n IH]; intros k; simpl.
  - constructor.
  - constructor; [apply IH|].
    apply Forall_forall. intros x Hx. apply in_map_iff in Hx.
    destruct Hx as [i [<- Hi]]. apply in_seq in Hi. lia.
Qed.

Lemma filter_sorted (f : Z -> bool) l :
  StronglySorted Z.lt l -> StronglySorted Z.lt (filter f l).
Proof.
  induction 1 as [|x l Hl IH Hx]; simpl; [constructor|].
  destruct (f x); [|exact IH].
  constructor; [exact IH|].
  apply Forall_forall. intros y Hy. apply filter_In in Hy.
  rewrite Forall_forall in Hx. apply Hx, Hy.
Qed.


Lemma py_range_empty a b : b <= a -> py_range a b = [].
Proof.
  intros H. unfold py_range. replace (Z.to_nat (b - a)) with 0%nat by lia.
  reflexivity.
Qed.

Lemma py_range_split a b c :
  a <= b -> b <= c -> py_range a c = py_range a b ++ py_range b c.
Proof.
  intros Hab Hbc. unfold py_range.
  replace (Z.to_nat (c - a)) with (Z.to_nat (b - a) + Z.to_nat (c - b))%nat
    by lia.
  rewrite seq_app, map_app. f_equal. rewrite Nat.add_0_l.
  rewrite <- (seq_shift_add (Z.to_nat (c - b)) (Z.to_nat (b - a))), map_map.
  apply map_ext. intros i. lia.
Qed.

Section Monitors.

(** Python values (states, times, recorded data) are kept abstract.  The
    collaborators that are not part of this module are parameters: indexing
    [x[0]], the [sample(step, state)] methods of the monitors [Raw],
    [RawVoi] and [AfferentCoupling] (each returns [None] or a pair
    [[time, data]]), and the coupling function called as
    [self.coupling(step, history)]. *)
Variable Obj : Type.
Variable getitem0 : Obj -> Obj.

(** A history source: an object with a [query(step)] method. *)
Record History : Type := { query : Z -> Obj }.

Definition Sampler : Type := Z -> Obj -> option (Obj * Obj).

Variable Raw_sample RawVoi_sample AfferentCoupling_sample : Sampler.
Variable coupling : Z -> History -> Obj.

(** One iteration of the loop of [get_sample]: [tmp] is the underlying
    sample; [times.append(tmp[0])] and [values.append(tmp[1])] when it is
    not [None]. *)
Definition record_step (super_sample : Sampler) (state_at : Z -> Obj)
    (acc : list Obj * list Obj) (step : Z) : list Obj * list Obj :=
  match super_sample step (state_at step) with
  | Some (time, data) => (fst acc ++ [time], snd acc ++ [data])
  | None => acc
  end.

(** [CosimMonitor.get_sample(start_step, n_steps, history, cosim)], for a
    class whose [super(self.__class__, self).sample] is [super_sample].  The
    result is the Python list [[numpy.array(times), numpy.array(values)]]. *)
Definition get_sample (super_sample : Sampler)
    (start_step n_steps : Z) (history : History) (cosim : bool)
    : list (list Obj) :=
  let state_at step :=
    if cosim then query history step else getitem0 (query history step) in
  let '(times, values) :=
    fold_left (record_step super_sample state_at)
      (py_range start_step (start_step + n_steps)) ([], []) in
  [times; values].

(** [CosimMonitorFromCoupling.get_sample(start_step, n_steps, history)]. *)
Definition get_sample_from_coupling (super_sample : Sampler)
    (start_step n_steps : Z) (history : History) : list (list Obj) :=
  let state_at step := coupling step history in
  let '(times, values) :=
    fold_left (record_step super_sample state_at)
      (py_range start_step (start_step + n_steps)) ([], []) in
  [times; values].

(** The [sample] methods of the concrete monitors.  In each class
    [super(self.__class__, self)] resolves to the first base class. *)
Definition RawCosim_sample (start_step n_steps : Z)
    (cosim_history history : History) : list (list Obj) :=
  get_sample Raw_sample start_step n_steps cosim_history true.

Definition RawVoiCosim_sample (start_step n_steps : Z)
    (cosim_history history : History) : list (list Obj) :=
  get_sample RawVoi_sample start_step n_steps cosim_history true.

Definition RawDelayed_sample (start_step n_steps : Z)
    (cosim_history history : History) : list (list Obj) :=
  get_sample Raw_sample start_step n_steps history false.

Definition RawVoiDelayed_sample (start_step n_steps : Z)
    (cosim_history history : History) : list (list Obj) :=
  get_sample RawVoi_sample start_step n_steps history false.

Definition CosimCoupling_sample (start_step n_steps : Z)
    (cosim_history history : History) : list (list Obj) :=
  get_sample_from_coupling AfferentCoupling_sample start_step n_steps history.

(** The samples that are not [None], in the order of the steps. *)
Definition recorded (super_sample : Sampler) (state_at : Z -> Obj)
    (steps : list Z) : list (Obj * Obj) :=
  flat_map (fun step => match super_sample step (state_at step) with
                        | Some p => [p]
                        | None => []
                        end) steps.

(** The steps whose sample is not [None]. *)
Definition recorded_steps (super_sample : Sampler) (state_at : Z -> Obj)
    (steps : list Z) : list Z :=
  filter (fun step => match super_sample step (state_at step) with
                      | Some _ => true
                      | None => false
                      end) steps.

Lemma fold_record_step super_sample state_at steps ts vs :
  fold_left (record_step super_sample state_at) steps (ts, vs) =
  (ts ++ map fst (recorded super_sample state_at steps),
   vs ++ map snd (recorded super_sample state_at steps)).
Proof.
  revert ts vs. induction steps as [|s steps IH]; intros ts vs; simpl.
  - now rewrite !app_nil_r.
  - unfold record_step at 2.
    destruct (super_sample s (state_at s)) as [[t v]|]; simpl.
    + rewrite IH, <- !app_assoc. reflexivity.
    + apply IH.
Qed.

Lemma recorded_via_steps super_sample state_at steps :
  map Some (recorded super_sample state_at steps) =
  map (fun step => super_sample step (state_at step))
      (recorded_steps super_sample state_at steps).
Proof.
  induction steps as [|s steps IH]; simpl; [reflexivity|].
  destruct (super_sample s (state_at s)) as [p|] eqn:E; simpl.
  - rewrite E, IH. reflexivity.
  - exact IH.
Qed.

Lemma length_recorded super_sample state_at steps :
  (length (recorded super_sample state_at steps) <= length steps)%nat.
Proof.
  induction steps as [|s steps IH]; simpl; [lia|].
  destruct (super_sample s (state_at s)); simpl; lia.
Qed.

(** What [get_sample] promises about its result for the steps
    [start_step .. start_step + n_steps - 1]: a list of exactly two arrays
    of equal length at most [n_steps]; entry [i] of the two arrays is the
    sample of the [i]-th step whose sample is not [None], the steps taken in
    increasing order. *)
Definition sample_arrays (super_sample : Sampler) (state_at : Z -> Obj)
    (start_step n_steps : Z) (result : list (list Obj)) : Prop :=
  exists times values : list Obj,
    result = [times; values] /\
    length times = length values /\
    Z.of_nat (length times) <= n_steps /\
    let steps := recorded_steps super_sample state_at
                   (py_range start_step (start_step + n_steps)) in
    StronglySorted Z.lt steps /\
    (forall step, In step steps <->
       (start_step <= step < start_step + n_steps /\
        super_sample step (state_at step) <> None)) /\
    map Some (combine times values) =
      map (fun step => super_sample step (state_at step)) steps.

Lemma fold_sample_arrays (super_sample : Sampler)
    (state_at : Z -> Obj) (start_step n_steps : Z) :
  0 <= n_steps ->
  sample_arrays super_sample state_at start_step n_steps
    (let '(times, values) :=
       fold_left (record_step super_sample state_at)
         (py_range start_step (start_step + n_steps)) ([], []) in
     [times; values]).
Proof.
  intros Hn. rewrite fold_record_step. simpl.
  set (steps := py_range start_step (start_step + n_steps)).
  exists (map fst (recorded super_sample state_at steps)),
         (map snd (recorded super_sample state_at steps)).
  split; [reflexivity|]. split; [now rewrite !length_map|].
  split.
  { rewrite length_map.
    pose proof (length_recorded super_sample state_at steps) as Hle.
    pose proof (py_range_length start_step (start_step + n_steps)) as Hlen.
    fold steps in Hlen. lia. }
  cbv zeta. fold steps. split; [apply filter_sorted, py_range_sorted|].
  split.
  - intros step. unfold recorded_steps. rewrite filter_In.
    unfold steps. rewrite py_range_In.
    destruct (super_sample step (state_at step)); split;
      intros [H1 H2]; (split; [exact H1 | congruence]).
  - rewrite <- recorded_via_steps. f_equal.
    generalize (recorded super_sample state_at steps) as l.
    induction l as [|[t v] l IH]; simpl; [reflexivity | now rewrite IH].
Qed.

(** C9.  For every start step, every [n_steps >= 0] and every history
    source, [get_sample] returns a list of exactly two arrays, times and
    values, of equal length at most [n_steps]; their entries are the samples
    of the steps [start_step .. start_step + n_steps - 1] in increasing step
    order, and a step whose underlying sample is [None] contributes to
    neither array.  The same holds for the variant of
    [CosimMonitorFromCoupling], whose states come from the coupling. *)
Theorem get_sample_arrays (super_sample : Sampler)
    (start_step n_steps : Z) (history : History) (cosim : bool) :
  0 <= n_steps ->
  sample_arrays super_sample
    (fun step =>
       if cosim then query history step else getitem0 (query history step))
    start_step n_steps
    (get_sample super_sample start_step n_steps history cosim) /\
  sample_arrays super_sample (fun step => coupling step history)
    start_step n_steps
    (get_sample_from_coupling super_sample start_step n_steps history).
Proof.
  intros Hn. split.
  - unfold get_sample. apply fold_sample_arrays, Hn.
  - unfold get_sample_from_coupling. apply fold_sample_arrays, Hn.
Qed.

(** C10.  The result of [RawDelayed.sample] and of [RawVoiDelayed.sample]
    does not depend on the [cosim_history] argument, and the result of
    [RawCosim.sample] does not depend on the [history] argument. *)
Theorem sample_ignores_unused_history (start_step n_steps : Z) :
  (forall history cosim_history1 cosim_history2,
     RawDelayed_sample start_step n_steps cosim_history1 history =
     RawDelayed_sample start_step n_steps cosim_history2 history) /\
  (forall history cosim_history1 cosim_history2,
     RawVoiDelayed_sample start_step n_steps cosim_history1 history =
     RawVoiDelayed_sample start_step n_steps cosim_history2 history) /\
  (forall cosim_history history1 history2,
     RawCosim_sample start_step n_steps cosim_history history1 =
     RawCosim_sample start_step n_steps cosim_history history2).
Proof.
  unfold RawDelayed_sample, RawVoiDelayed_sample, RawCosim_sample.
  repeat split.
Qed.

(** *** Further properties of the sampling loop *)

(** The state the loop of [get_sample] hands to the underlying monitor. *)
Definition state_of (history : History) (cosim : bool) (step : Z) : Obj :=
  if cosim then query history step else getitem0 (query history step).

Lemma get_sample_recorded super_sample start_step n_steps history cosim :
  get_sample super_sample start_step n_steps history cosim =
  [map fst (recorded super_sample (state_of history cosim)
              (py_range start_step (start_step + n_steps)));
   map snd (recorded super_sample (state_of history cosim)
              (py_range start_step (start_step + n_steps)))].
Proof. unfold get_sample. rewrite fold_record_step. reflexivity. Qed.

Lemma get_sample_from_coupling_recorded super_sample start_step n_steps history :
  get_sample_from_coupling super_sample start_step n_steps history =
  [map fst (recorded super_sample (fun step => coupling step history)
              (py_range start_step (start_step + n_steps)));
   map snd (recorded super_sample (fun step => coupling step history)
              (py_range start_step (start_step + n_steps)))].
Proof. unfold get_sample_from_coupling. rewrite fold_record_step. reflexivity. Qed.

Lemma recorded_ext super_sample state1 state2 steps :
  (forall step, In step steps -> state1 step = state2 step) ->
  recorded super_sample state1 steps = recorded super_sample state2 steps.
Proof.
  induction steps as [|s steps IH]; intros H; simpl; [reflexivity|].
  rewrite (H s) by (left; reflexivity).
  rewrite IH by (intros step Hin; apply H; right; exact Hin). reflexivity.
Qed.

Lemma recorded_app super_sample state_at steps1 steps2 :
  recorded super_sample state_at (steps1 ++ steps2) =
  recorded super_sample state_at steps1 ++ recorded super_sample state_at steps2.
Proof. unfold recorded. apply flat_map_app. Qed.

Lemma recorded_all super_sample state_at steps :
  (forall step, In step steps -> super_sample step (state_at step) <> None) ->
  length (recorded super_sample state_at steps) = length steps.
Proof.
  induction steps as [|s steps IH]; intros H; simpl; [reflexivity|].
  destruct (super_sample s (state_at s)) as [p|] eqn:E.
  - simpl. f_equal. apply IH. intros step Hin. apply H. right. exact Hin.
  - exfalso. apply (H s); [left; reflexivity | exact E].
Qed.

Lemma recorded_none super_sample state_at steps :
  (forall step, In step steps -> super_sample step (state_at step) = None) ->
  recorded super_sample state_at steps = [].
Proof.
  induction steps as [|s steps IH]; intros H; simpl; [reflexivity|].
  rewrite (H s) by (left; reflexivity). simpl.
  apply IH. intros step Hin. apply H. right. exact Hin.
Qed.

(** A request for no steps, or for a negative number of steps, returns two
    empty arrays, from either loop. *)
Theorem get_sample_no_steps (super_sample : Sampler)
    (start_step n_steps : Z) (history : History) (cosim : bool) :
  n_steps <= 0 ->
  get_sample super_sample start_step n_steps history cosim = [[]; []] /\
  get_sample_from_coupling super_sample start_step n_steps history = [[]; []].
Proof.
  intros Hn. rewrite get_sample_recorded, get_sample_from_coupling_recorded.
  rewrite (py_range_empty start_step (start_step + n_steps)) by lia.
  split; reflexivity.
Qed.

(** Sampling [n + m] steps at once gives, array by array, the samples of
    the first [n] steps followed by those of the next [m] steps. *)
Theorem get_sample_chunks (super_sample : Sampler)
    (start_step n m : Z) (history : History) (cosim : bool) :
  0 <= n -> 0 <= m ->
  get_sample super_sample start_step (n + m) history cosim =
  map (fun p => fst p ++ snd p)
    (combine (get_sample super_sample start_step n history cosim)
             (get_sample super_sample (start_step + n) m history cosim)).
Proof.
  intros Hn Hm. rewrite !get_sample_recorded.
  replace (start_step + (n + m)) with (start_step + n + m) by lia.
  rewrite (py_range_split start_step (start_step + n) (start_step + n + m))
    by lia.
  rewrite recorded_app, !map_app. reflexivity.
Qed.

(** When the underlying monitor gives a sample at every step of the range,
    both arrays have exactly [n_steps] entries; when it gives none, both are
    empty. *)
Theorem get_sample_every_step (super_sample : Sampler)
    (start_step n_steps : Z) (history : History) (cosim : bool) :
  0 <= n_steps ->
  ((forall step, start_step <= step < start_step + n_steps ->
      super_sample step (state_of history cosim step) <> None) ->
   Forall (fun array => Z.of_nat (length array) = n_steps)
     (get_sample super_sample start_step n_steps history cosim)) /\
  ((forall step, start_step <= step < start_step + n_steps ->
      super_sample step (state_of history cosim step) = None) ->
   get_sample super_sample start_step n_steps history cosim = [[]; []]).
Proof.
  intros Hn. rewrite get_sample_recorded. split; intros H.
  - assert (Hlen : Z.of_nat (length (recorded super_sample
                     (state_of history cosim)
                     (py_range start_step (start_step + n_steps)))) = n_steps).
    { rewrite recorded_all
        by (intros step Hin; apply H, py_range_In, Hin).
      rewrite py_range_length; lia. }
    repeat constructor; rewrite length_map; exact Hlen.
  - rewrite recorded_none
      by (intros step Hin; apply H, py_range_In, Hin).
    reflexivity.
Qed.

(** [get_sample] reads the history at the steps of the range only: two
    histories that answer alike on
    [start_step .. start_step + n_steps - 1] give the same arrays. *)
Theorem get_sample_reads_range_only (super_sample : Sampler)
    (start_step n_steps : Z) (history1 history2 : History) (cosim : bool) :
  (forall step, start_step <= step < start_step + n_steps ->
     query history1 step = query history2 step) ->
  get_sample super_sample start_step n_steps history1 cosim =
  get_sample super_sample start_step n_steps history2 cosim.
Proof.
  intros H. rewrite !get_sample_recorded.
  rewrite (recorded_ext super_sample (state_of history1 cosim)
             (state_of history2 cosim)); [reflexivity|].
  intros step Hin. apply py_range_In in Hin. unfold state_of.
  rewrite (H step Hin). reflexivity.
Qed.

(** The delayed monitors return what the cosimulation monitors return
    whenever, at every step of the range, item 0 of what the full history
    answers is what the cosimulation history answers. *)
Theorem delayed_agrees_with_cosim (start_step n_steps : Z)
    (cosim_history history unused1 unused2 : History) :
  (forall step, start_step <= step < start_step + n_steps ->
     getitem0 (query history step) = query cosim_history step) ->
  RawDelayed_sample start_step n_steps unused1 history =
    RawCosim_sample start_step n_steps cosim_history unused2 /\
  RawVoiDelayed_sample start_step n_steps unused1 history =
    RawVoiCosim_sample start_step n_steps cosim_history unused2.
Proof.
  intros H.
  unfold RawDelayed_sample, RawCosim_sample, RawVoiDelayed_sample,
    RawVoiCosim_sample.
  rewrite !get_sample_recorded.
  split.
  - rewrite (recorded_ext Raw_sample (state_of history false)
               (state_of cosim_history true)); [reflexivity|].
    intros step Hin. apply py_range_In in Hin. apply (H step Hin).
  - rewrite (recorded_ext RawVoi_sample (state_of history false)
               (state_of cosim_history true)); [reflexivity|].
    intros step Hin. apply py_range_In in Hin. apply (H step Hin).
Qed.

End Monitors.

(** A concrete monitor over integer-valued objects: the state at a step is
    the pair-like value [step * step], indexing is the identity, and the
    underlying monitor records the even steps only. *)
Definition even_sampler : Sampler Z :=
  fun step state => if Z.even step then Some (step, state) else None.

Definition square_history : History Z := {| query := fun step => step * step |}.

Lemma get_sample_arrays_witness :
  0 <= 4 /\
  get_sample Z (fun x => x) even_sampler 3 4 square_history false =
    [[4; 6]; [16; 36]] /\
  sample_arrays Z even_sampler (fun step => query Z square_history step) 3 4
    (get_sample Z (fun x => x) even_sampler 3 4 square_history false).
Proof.
  assert (Hn : 0 <= 4) by lia.
  split; [exact Hn|]. split; [reflexivity|].
  exact (proj1 (get_sample_arrays Z (fun x => x) (fun step _ => step)
                  even_sampler 3 4 square_history false Hn)).
Defined.

(** A monitor that records every step, and a history that agrees with
    [square_history] below step 10 only. *)
Definition every_sampler : Sampler Z := fun step state => Some (step, state).

Definition clipped_history : History Z :=
  {| query := fun step => if step <? 10 then step * step else 0 |}.

Lemma get_sample_no_steps_witness :
  -1 <= 0 /\
  get_sample Z (fun x => x) even_sampler 3 (-1) square_history true = [[]; []].
Proof.
  assert (Hn : -1 <= 0) by lia.
  split; [exact Hn|].
  eapply proj1.
  apply get_sample_no_steps with (coupling := fun (step : Z) (_ : History Z) => step).
  exact Hn.
Defined.

Lemma get_sample_chunks_witness :
  get_sample Z (fun x => x) even_sampler 3 (1 + 3) square_history true =
  map (fun p => fst p ++ snd p)
    (combine (get_sample Z (fun x => x) even_sampler 3 1 square_history true)
             (get_sample Z (fun x => x) even_sampler (3 + 1) 3 square_history true)).
Proof. apply get_sample_chunks; lia. Defined.

Lemma get_sample_every_step_witness :
  Forall (fun array => Z.of_nat (length array) = 4)
    (get_sample Z (fun x => x) every_sampler 3 4 square_history true).
Proof.
  refine (proj1 (get_sample_every_step Z (fun x => x) every_sampler 3 4
                   square_history true _) _).
  - lia.
  - intros step _. discriminate.
Defined.

Lemma get_sample_reads_range_only_witness :
  get_sample Z (fun x => x) even_sampler 3 4 square_history true =
  get_sample Z (fun x => x) even_sampler 3 4 clipped_history true.
Proof.
  apply get_sample_reads_range_only. intros step Hstep. simpl.
  destruct (Z.ltb_spec step 10); [reflexivity | lia].
Defined.

Lemma delayed_agrees_with_cosim_witness :
  RawDelayed_sample Z (fun x => x) even_sampler 3 4 clipped_history square_history =
  RawCosim_sample Z (fun x => x) even_sampler 3 4 square_history clipped_history.
Proof.
  eapply proj1.
  apply delayed_agrees_with_cosim with (RawVoi_sample := every_sampler).
  intros step _. reflexivity.
Defined.

End CosimMonitors.

(* ================================================================== *)
(** ** Rendering and building: [MakoUtilMix]                          *)
(* ================================================================== *)

Module Builders.

Import LineNumbers.

(** The classes of the exceptions the builders meet.  [NameError] is what
    Mako raises for an undefined symbol under [strict_undefined=True];
    [CompileError] is [pycuda.driver.CompileError]; [KeyError] is raised by
    [globals_[name]]; every other subclass of [Exception] is kept by its
    name. *)
Inductive exn_class : Type :=
  | NameError
  | SyntaxError
  | KeyError
  | CompileError
  | OtherException (name : string).

Record exn : Type := Exn { class : exn_class; message : string }.

Inductive result (A : Type) : Type :=
  | Return (a : A)
  | Raise (e : exn).
Arguments Return {A} a.
Arguments Raise {A} e.

(** A computation that prints to standard output and may raise: it maps the
    texts printed so far to its outcome and the texts printed after it. *)
Definition Py (A : Type) : Type := list string -> result A * list string.

Definition ret {A} (a : A) : Py A := fun out => (Return a, out).
Definition raise {A} (e : exn) : Py A := fun out => (Raise e, out).
Definition print (text : string) : Py unit := fun out => (Return tt, out ++ [text]).
Definition lift {A} (r : result A) : Py A := fun out => (r, out).

Definition bind {A B} (m : Py A) (k : A -> Py B) : Py B :=
  fun out => match m out with
             | (Return a, out') => k a out'
             | (Raise e, out') => (Raise e, out')
             end.

(** [try: body except <classes> as exc: handler]. *)
Definition try_except {A} (body : Py A) (catches : exn -> bool)
    (handler : exn -> Py A) : Py A :=
  fun out => match body out with
             | (Raise e, out') =>
                 if catches e then handler e out' else (Raise e, out')
             | ok => ok
             end.

Lemma bind_raises {A B} (m : Py A) (k : A -> Py B) e out out' :
  m out = (Raise e, out') -> bind m k out = (Raise e, out').
Proof. intros H. unfold bind. rewrite H. reflexivity. Qed.

Lemma bind_returns {A B} (m : Py A) (k : A -> Py B) a out out' :
  m out = (Return a, out') -> bind m k out = k a out'.
Proof. intros H. unfold bind. rewrite H. reflexivity. Qed.

Declare Scope py_scope.
Delimit Scope py_scope with py.
Notation "x <- m ;; k" := (bind m (fun x => k))
  (at level 100, m at next level, right associativity) : py_scope.
Notation "m ;; k" := (bind m (fun _ => k))
  (at level 100, right associativity) : py_scope.
Local Open Scope py_scope.

(** [except Exception]: every exception of the model. *)
Definition any_Exception (e : exn) : bool := true.

(** [except pycuda.driver.CompileError]. *)
Definition is_CompileError (e : exn) : bool :=
  match class e with
  | CompileError => true
  | _ => false
  end.

Section External.

(** Mako, the Python interpreter and PyCUDA are collaborators outside the
    repository; they enter as parameters.

    - [Template source strict_undefined] is the constructor
      [Template(source, lookup=self.lookup, strict_undefined=...)];
    - [render template content] is [template.render] applied to the
      keyword arguments [content];
    - [text_error_template exc] is [text_error_template().render()] while
      [exc] is being handled: Mako's report of the failure;
    - [exec source] is [exec(source, globals_)] on a fresh dictionary and
      gives the dictionary it filled; [globals_get] reads it;
    - [SourceModule source] compiles device code and [get_function] looks an
      entry point up in the compiled module. *)
Variables MakoTemplate Content Globals CuModule Callable : Type.
Variable Template : string -> bool -> result MakoTemplate.
Variable render : MakoTemplate -> Content -> result string.
Variable text_error_template : exn -> string.
Variable exec : string -> result Globals.
Variable globals_get : Globals -> string -> option Callable.
Variable SourceModule : string -> result CuModule.
Variable get_function : CuModule -> string -> result Callable.

(** [_render_template(source, content)]. *)
Definition _render_template (source : string) (content : Content) : Py string :=
  template <- lift (Template source true) ;;
  try_except
    (lift (render template content))
    any_Exception
    (fun exc => print (text_error_template exc) ;; raise exc).

(** [_build_py_func(template_source, content, name, print_source)]. *)
Definition _build_py_func (template_source : string) (content : Content)
    (name : string) (print_source : bool) : Py Callable :=
  source <- _render_template template_source content ;;
  (if print_source then print (_insert_line_numbers source) else ret tt) ;;
  globals_ <-
    try_except
      (lift (exec source))
      any_Exception
      (fun exc =>
         (if negb print_source then print (_insert_line_numbers source)
          else ret tt) ;;
         raise exc) ;;
  match globals_get globals_ name with
  | Some f => ret f
  | None => raise (Exn KeyError name)
  end.

(** [_build_cu_func(template_source, content, name, print_source)]. *)
Definition _build_cu_func (template_source : string) (content : Content)
    (name : string) (print_source : bool) : Py Callable :=
  source <- _render_template template_source content ;;
  (if print_source then print source else ret tt) ;;
  module <-
    try_except
      (lift (SourceModule source))
      is_CompileError
      (fun exc => print (_insert_line_numbers source) ;; raise exc) ;;
  func <- lift (get_function module name) ;;
  ret func.

(** What a template refers to and what a content mapping binds: the names
    the template body references without defining them itself (Mako's
    undeclared identifiers) and the keys of the mapping. *)
Variable undeclared : MakoTemplate -> list string.
Variable keys : Content -> list string.

(** Mako's documented behaviour under [strict_undefined=True]: rendering a
    template that references a name the content does not bind raises
    [NameError] at once. *)
Definition strict_undefined_semantics : Prop :=
  forall source template content name,
    Template source true = Return template ->
    In name (undeclared template) ->
    ~ In name (keys content) ->
    exists msg, render template content = Raise (Exn NameError msg).

(** *** Rendering *)

Lemma render_template_returns source template content text out :
  Template source true = Return template ->
  render template content = Return text ->
  _render_template source content out = (Return text, out).
Proof.
  intros HT HR. unfold _render_template, bind, lift, try_except.
  rewrite HT, HR. reflexivity.
Qed.

Lemma render_template_raises source template content exc out :
  Template source true = Return template ->
  render template content = Raise exc ->
  _render_template source content out =
    (Raise exc, out ++ [text_error_template exc]).
Proof.
  intros HT HR. unfold _render_template, bind, lift, try_except.
  rewrite HT, HR. reflexivity.
Qed.

(** A failure of the rendering ends both builders before anything is
    compiled. *)
Lemma build_stops_at_render source content name print_source exc out out' :
  _render_template source content out = (Raise exc, out') ->
  _build_py_func source content name print_source out = (Raise exc, out') /\
  _build_cu_func source content name print_source out = (Raise exc, out').
Proof.
  intros H. split; [unfold _build_py_func | unfold _build_cu_func];
    apply bind_raises, H.
Qed.

(** *** The host builder *)

Lemma build_py_func_exec_raises template_source template content name
    print_source source exc out :
  Template template_source true = Return template ->
  render template content = Return source ->
  exec source = Raise exc ->
  _build_py_func template_source content name print_source out =
    (Raise exc, out ++ [_insert_line_numbers source]).
Proof.
  intros HT HR HE. unfold _build_py_func.
  rewrite (bind_returns _ _ _ _ _ (render_template_returns _ _ _ _ out HT HR)).
  unfold bind, try_except, lift, print, ret, raise, any_Exception.
  destruct print_source; simpl; rewrite HE; reflexivity.
Qed.

(** *** The device builder *)

Lemma build_cu_func_outcome template_source template content name
    (print_source : bool) source out :
  Template template_source true = Return template ->
  render template content = Return source ->
  let out1 := out ++ (if print_source then [source] else []) in
  _build_cu_func template_source content name print_source out =
    match SourceModule source with
    | Raise exc =>
        (Raise exc,
         if is_CompileError exc then out1 ++ [_insert_line_numbers source]
         else out1)
    | Return module => (get_function module name, out1)
    end.
Proof.
  intros HT HR. unfold _build_cu_func.
  rewrite (bind_returns _ _ _ _ _ (render_template_returns _ _ _ _ out HT HR)).
  unfold bind, try_except, lift, print, ret, raise.
  destruct print_source; simpl;
    destruct (SourceModule source) as [module|exc]; simpl;
    rewrite ?app_nil_r;
    try (destruct (get_function module name); reflexivity);
    destruct (is_CompileError exc); reflexivity.
Qed.

(** *** Failure of the rendering and of the device compiler *)

(** Under Mako's strict undefined-symbol semantics, rendering a template
    that references a symbol absent from the content mapping raises: the
    caller receives the [NameError], and before it propagates exactly one
    text has been printed, Mako's report of the failure. *)
Theorem render_template_undefined_symbol
    (source : string) (template : MakoTemplate) (content : Content)
    (name : string) (out : list string) :
  strict_undefined_semantics ->
  Template source true = Return template ->
  In name (undeclared template) ->
  ~ In name (keys content) ->
  exists exc,
    class exc = NameError /\
    is_CompileError exc = false /\
    _render_template source content out =
      (Raise exc, out ++ [text_error_template exc]) /\
    forall entry print_source,
      _build_py_func source content entry print_source out =
        (Raise exc, out ++ [text_error_template exc]) /\
      _build_cu_func source content entry print_source out =
        (Raise exc, out ++ [text_error_template exc]).
Proof.
  intros Hstrict HT Hin Hnot.
  destruct (Hstrict source template content name HT Hin Hnot) as [msg HR].
  exists (Exn NameError msg).
  pose proof (render_template_raises _ _ _ _ out HT HR) as Hrender.
  repeat split; try exact Hrender;
    eapply build_stops_at_render; exact Hrender.
Qed.


(** C5.  When the device compiler rejects the rendered source with a
    [CompileError], [_build_cu_func] raises that very exception, after
    printing the generated source annotated with line numbers (and after the
    plain source when [print_source] is set), and returns no callable.  A
    build that does return a callable has compiled the whole source and
    found the entry point in it.  The host builder gives the same
    line-numbered diagnostic when [exec] rejects the source, whatever the
    class of the exception. *)
Theorem build_cu_func_compile_error
    (template_source : string) (template : MakoTemplate) (content : Content)
    (name : string) (print_source : bool) (source : string)
    (out : list string) :
  Template template_source true = Return template ->
  render template content = Return source ->
  (forall exc,
     SourceModule source = Raise exc ->
     class exc = CompileError ->
     _build_cu_func template_source content name print_source out =
       (Raise exc,
        out ++ (if print_source then [source] else [])
            ++ [_insert_line_numbers source])) /\
  (forall func out',
     _build_cu_func template_source content name print_source out =
       (Return func, out') ->
     exists module,
       SourceModule source = Return module /\
       get_function module name = Return func) /\
  (forall exc,
     exec source = Raise exc ->
     _build_py_func template_source content name print_source out =
       (Raise exc, out ++ [_insert_line_numbers source])).
Proof.
  intros HT HR.
  pose proof (build_cu_func_outcome _ _ _ name print_source _ out HT HR) as Hcu.
  cbv zeta in Hcu. repeat split.
  - intros exc HS Hclass. rewrite Hcu, HS.
    unfold is_CompileError. rewrite Hclass, <- app_assoc. reflexivity.
  - intros func out' Hret. rewrite Hcu in Hret.
    destruct (SourceModule source) as [module|exc]; [|discriminate].
    exists module. split; [reflexivity|]. congruence.
  - intros exc HE. eapply build_py_func_exec_raises; eassumption.
Qed.

(** *** Further properties of the renderer and of the builders *)

Lemma render_template_constructor_raises source content exc out :
  Template source true = Raise exc ->
  _render_template source content out = (Raise exc, out).
Proof.
  intros HT. unfold _render_template, bind, lift. rewrite HT. reflexivity.
Qed.

(** An exception raised by the [Template] constructor (a template that
    Mako cannot compile) leaves [_render_template] and both builders
    without any diagnostic: the constructor is called outside the [try]
    block. *)
Theorem template_constructor_error_unreported
    (source : string) (content : Content) (name : string)
    (print_source : bool) (exc : exn) (out : list string) :
  Template source true = Raise exc ->
  _render_template source content out = (Raise exc, out) /\
  _build_py_func source content name print_source out = (Raise exc, out) /\
  _build_cu_func source content name print_source out = (Raise exc, out).
Proof.
  intros HT.
  pose proof (render_template_constructor_raises source content exc out HT) as H.
  split; [exact H|]. eapply build_stops_at_render. exact H.
Qed.

(** [_render_template] returns a text exactly when the template compiles
    and renders to that text, and then it has printed nothing. *)
Theorem render_template_returns_iff
    (source : string) (content : Content) (text : string)
    (out out' : list string) :
  _render_template source content out = (Return text, out') <->
  (exists template,
     Template source true = Return template /\
     render template content = Return text) /\
  out' = out.
Proof.
  split.
  - unfold _render_template, bind, lift, try_except, any_Exception, print,
      raise.
    destruct (Template source true) as [template|e]; [|discriminate].
    destruct (render template content) as [t|e] eqn:HR; [|discriminate].
    intros H. injection H as <- <-. split; [|reflexivity].
    exists template. split; [reflexivity | exact HR].
  - intros [(template & HT & HR) ->].
    apply (render_template_returns _ _ _ _ out HT HR).
Qed.

(** Once [exec] has accepted the rendered source, [_build_py_func] returns
    the entry point found under [name] in the namespace, or raises
    [KeyError] when the source defines no such name; the numbered source is
    printed only if [print_source] is set. *)
Theorem build_py_func_after_exec
    (template_source : string) (template : MakoTemplate) (content : Content)
    (name : string) (print_source : bool) (source : string)
    (globals_ : Globals) (out : list string) :
  Template template_source true = Return template ->
  render template content = Return source ->
  exec source = Return globals_ ->
  _build_py_func template_source content name print_source out =
    (match globals_get globals_ name with
     | Some func => Return func
     | None => Raise (Exn KeyError name)
     end,
     out ++ (if print_source then [_insert_line_numbers source] else [])).
Proof.
  intros HT HR HE. unfold _build_py_func.
  rewrite (bind_returns _ _ _ _ _ (render_template_returns _ _ _ _ out HT HR)).
  unfold bind, try_except, lift, print, ret, raise.
  destruct print_source; simpl; rewrite HE, ?app_nil_r;
    destruct (globals_get globals_ name); reflexivity.
Qed.

(** An exception of [SourceModule] that is not a [CompileError] passes
    through [_build_cu_func] without the line-numbered listing. *)
Theorem build_cu_func_other_error
    (template_source : string) (template : MakoTemplate) (content : Content)
    (name : string) (print_source : bool) (source : string) (exc : exn)
    (out : list string) :
  Template template_source true = Return template ->
  render template content = Return source ->
  SourceModule source = Raise exc ->
  class exc <> CompileError ->
  _build_cu_func template_source content name print_source out =
    (Raise exc, out ++ (if print_source then [source] else [])).
Proof.
  intros HT HR HS Hclass.
  rewrite (build_cu_func_outcome _ _ _ name print_source _ out HT HR), HS.
  unfold is_CompileError. destruct (class exc); try reflexivity. congruence.
Qed.

(** Once the device compiler has accepted the source, [_build_cu_func]
    gives what [get_function] gives for the entry point, a callable or the
    exception of a missing name, and never prints the line-numbered
    listing. *)
Theorem build_cu_func_after_compile
    (template_source : string) (template : MakoTemplate) (content : Content)
    (name : string) (print_source : bool) (source : string)
    (module : CuModule) (out : list string) :
  Template template_source true = Return template ->
  render template content = Return source ->
  SourceModule source = Return module ->
  _build_cu_func template_source content name print_source out =
    (get_function module name,
     out ++ (if print_source then [source] else [])).
Proof.
  intros HT HR HS.
  rewrite (build_cu_func_outcome _ _ _ name print_source _ out HT HR), HS.
  reflexivity.
Qed.

(** Whatever the collaborators do, the builders only append to what has
    been printed: [_build_py_func] prints at most one text and
    [_build_cu_func] at most two. *)
Theorem builders_print_little
    (template_source : string) (content : Content) (name : string)
    (print_source : bool) (out : list string) :
  (exists printed,
     snd (_build_py_func template_source content name print_source out) =
       out ++ printed /\ length printed <= 1) /\
  (exists printed,
     snd (_build_cu_func template_source content name print_source out) =
       out ++ printed /\ length printed <= 2).
Proof.
  unfold _build_py_func, _build_cu_func, _render_template, bind, try_except,
    lift, print, ret, raise, any_Exception.
  destruct (Template template_source true) as [template|e]; simpl.
  2: { split; exists []; rewrite app_nil_r; split; auto. }
  destruct (render template content) as [source|e]; simpl.
  2: { split; eexists [_]; split; auto. }
  split.
  - destruct print_source; simpl;
      destruct (exec source) as [g|e]; simpl;
      try destruct (globals_get g name); simpl;
      first [ exists []; rewrite app_nil_r; split; [reflexivity | simpl; lia]
            | eexists [_]; split; [reflexivity | simpl; lia] ].
  - destruct print_source; simpl;
      destruct (SourceModule source) as [m|e]; simpl;
      try destruct (get_function m name); simpl;
      try destruct (is_CompileError e); simpl;
      rewrite <- ?app_assoc; simpl;
      first [ exists []; rewrite app_nil_r; split; [reflexivity | simpl; lia]
            | eexists [_]; split; [reflexivity | simpl; lia]
            | eexists [_; _]; split; [reflexivity | simpl; lia] ].
Qed.

End External.

Arguments strict_undefined_semantics {MakoTemplate Content}.
Arguments _render_template {MakoTemplate Content}.
Arguments _build_py_func {MakoTemplate Content Globals Callable}.
Arguments _build_cu_func {MakoTemplate Content CuModule Callable}.

(** *** A small instance of the collaborators

    Templates are their own source; the only template with a substitution
    is the text [${x}], which renders to the value bound to [x].  The host
    interpreter and the device compiler accept one source each. *)
Module Toy.

Local Open Scope string_scope.

Definition Template (source : string) (strict_undefined : bool) : result string :=
  Return source.

Fixpoint assoc (name : string) (content : list (string * string)) : option string :=
  match content with
  | [] => None
  | (k, v) :: rest => if String.eqb k name then Some v else assoc name rest
  end.

Definition render (template : string) (content : list (string * string))
    : result string :=
  if String.eqb template "${x}" then
    match assoc "x" content with
    | Some v => Return v
    | None => Raise (Exn NameError "'x' is not defined")
    end
  else Return template.

Definition undeclared (template : string) : list string :=
  if String.eqb template "${x}" then ["x"] else [].

Definition keys (content : list (string * string)) : list string :=
  map fst content.

Definition class_name (c : exn_class) : string :=
  match c with
  | NameError => "NameError"
  | SyntaxError => "SyntaxError"
  | KeyError => "KeyError"
  | CompileError => "CompileError"
  | OtherException name => name
  end.

(** The report in the layout of Mako's text error template: the traceback
    heading, then the class of the exception and its message. *)
Definition text_error_template (exc : exn) : string :=
  "Traceback (most recent call last):" ++
  String nl (class_name (class exc) ++ ": " ++ message exc ++ String nl "").

Definition exec (source : string) : result string :=
  if String.eqb source "def kernel(): pass" then Return source
  else Raise (Exn SyntaxError "invalid syntax").

Definition globals_get (globals_ name : string) : option string :=
  if String.eqb name "kernel" then Some globals_ else None.

Definition SourceModule (source : string) : result string :=
  if String.eqb source "__global__ void kernel() {}" then Return source
  else Raise (Exn CompileError "nvcc compilation failed").

Definition get_function (module name : string) : result string :=
  if String.eqb name "kernel" then Return module
  else Raise (Exn (OtherException "LogicError") "named symbol not found").

Definition template_x : string := "${x}".
Definition name_x : string := "x".
Definition content_y : list (string * string) := [("y", "1")].
Definition kernel : string := "kernel".
Definition bad_source : string := "int kernel;".
Definition bad_source_numbered : string := "001" ++ String tab "int kernel;".
Definition nvcc_failed : string := "nvcc compilation failed".
Definition unfinished : string := "${".
Definition syntax_exception : string := "SyntaxException".
Definition logic_error : string := "LogicError".
Definition no_device : string := "no CUDA-capable device is detected".
Definition good_py_source : string := "def kernel(): pass".
Definition good_cu_source : string := "__global__ void kernel() {}".

Lemma assoc_absent name content :
  ~ In name (keys content) -> assoc name content = None.
Proof.
  induction content as [|[k v] rest IH]; simpl; [reflexivity|].
  intros H. destruct (String.eqb_spec k name) as [->|_]; [tauto|].
  apply IH. tauto.
Qed.

Lemma strict : strict_undefined_semantics Template render undeclared keys.
Proof.
  intros source template content name _ Hin Hnot.
  unfold undeclared in Hin. unfold render.
  destruct (String.eqb template "${x}"); [|contradiction].
  destruct Hin as [<-|[]]. rewrite (assoc_absent _ _ Hnot). eauto.
Qed.

End Toy.

Lemma render_template_undefined_symbol_witness :
  exists exc,
    class exc = NameError /\
    is_CompileError exc = false /\
    _render_template Toy.Template Toy.render Toy.text_error_template
      Toy.template_x Toy.content_y [] =
      (Raise exc, [] ++ [Toy.text_error_template exc]) /\
    forall entry print_source,
      _build_py_func Toy.Template Toy.render Toy.text_error_template
        Toy.exec Toy.globals_get Toy.template_x Toy.content_y entry
        print_source [] =
        (Raise exc, [] ++ [Toy.text_error_template exc]) /\
      _build_cu_func Toy.Template Toy.render Toy.text_error_template
        Toy.SourceModule Toy.get_function Toy.template_x Toy.content_y entry
        print_source [] =
        (Raise exc, [] ++ [Toy.text_error_template exc]).
Proof.
  apply (render_template_undefined_symbol _ _ _ _ _
           Toy.Template Toy.render Toy.text_error_template
           Toy.exec Toy.globals_get Toy.SourceModule Toy.get_function
           Toy.undeclared Toy.keys Toy.template_x Toy.template_x
           Toy.content_y Toy.name_x [] Toy.strict).
  - reflexivity.
  - simpl. left. reflexivity.
  - simpl. intros [H|[]]. discriminate H.
Defined.



Lemma build_cu_func_compile_error_witness :
  _build_cu_func Toy.Template Toy.render Toy.text_error_template
    Toy.SourceModule Toy.get_function Toy.bad_source [] Toy.kernel true [] =
  (Raise (Exn CompileError Toy.nvcc_failed),
   [Toy.bad_source; Toy.bad_source_numbered]).
Proof.
  apply (proj1 (build_cu_func_compile_error _ _ _ _ _
                  Toy.Template Toy.render Toy.text_error_template
                  Toy.exec Toy.globals_get Toy.SourceModule Toy.get_function
                  Toy.bad_source Toy.bad_source [] Toy.kernel true
                  Toy.bad_source [] eq_refl eq_refl)).
  - reflexivity.
  - reflexivity.
Defined.

(** *** Instances for the further properties *)

(** A constructor that rejects the unfinished substitution [${], and a
    device driver that fails before it compiles. *)
Definition rejecting_Template (source : string) (strict_undefined : bool)
    : result string :=
  if String.eqb source Toy.unfinished then
    Raise (Exn (OtherException Toy.syntax_exception) Toy.unfinished)
  else Return source.

Definition failing_SourceModule (source : string) : result string :=
  Raise (Exn (OtherException Toy.logic_error) Toy.no_device).

Lemma template_constructor_error_unreported_witness :
  let exc := Exn (OtherException Toy.syntax_exception) Toy.unfinished in
  _render_template rejecting_Template Toy.render Toy.text_error_template
    Toy.unfinished [] [] = (Raise exc, []) /\
  _build_py_func rejecting_Template Toy.render Toy.text_error_template
    Toy.exec Toy.globals_get Toy.unfinished [] Toy.kernel true [] =
    (Raise exc, []) /\
  _build_cu_func rejecting_Template Toy.render Toy.text_error_template
    Toy.SourceModule Toy.get_function Toy.unfinished [] Toy.kernel true [] =
    (Raise exc, []).
Proof.
  apply template_constructor_error_unreported. reflexivity.
Defined.

Lemma render_template_returns_iff_witness :
  _render_template Toy.Template Toy.render Toy.text_error_template
    Toy.template_x [(Toy.name_x, Toy.kernel)] [] = (Return Toy.kernel, []).
Proof.
  apply (proj2 (render_template_returns_iff _ _
                  Toy.Template Toy.render Toy.text_error_template
                  Toy.template_x [(Toy.name_x, Toy.kernel)] Toy.kernel [] [])).
  split; [|reflexivity]. exists Toy.template_x. split; reflexivity.
Defined.

Lemma build_py_func_after_exec_witness :
  _build_py_func Toy.Template Toy.render Toy.text_error_template
    Toy.exec Toy.globals_get Toy.good_py_source [] Toy.name_x false [] =
  (Raise (Exn KeyError Toy.name_x), [] ++ []).
Proof.
  apply (build_py_func_after_exec _ _ _ _
           Toy.Template Toy.render Toy.text_error_template
           Toy.exec Toy.globals_get
           Toy.good_py_source Toy.good_py_source [] Toy.name_x false
           Toy.good_py_source Toy.good_py_source []);
    reflexivity.
Defined.

Lemma build_cu_func_other_error_witness :
  _build_cu_func Toy.Template Toy.render Toy.text_error_template
    failing_SourceModule Toy.get_function Toy.bad_source [] Toy.kernel true [] =
  (Raise (Exn (OtherException Toy.logic_error) Toy.no_device),
   [] ++ [Toy.bad_source]).
Proof.
  apply (build_cu_func_other_error _ _ _ _
           Toy.Template Toy.render Toy.text_error_template
           failing_SourceModule Toy.get_function
           Toy.bad_source Toy.bad_source [] Toy.kernel true Toy.bad_source).
  - reflexivity.
  - reflexivity.
  - reflexivity.
  - discriminate.
Defined.

Lemma build_cu_func_after_compile_witness :
  _build_cu_func Toy.Template Toy.render Toy.text_error_template
    Toy.SourceModule Toy.get_function Toy.good_cu_source [] Toy.kernel false [] =
  (Return Toy.good_cu_source, [] ++ []).
Proof.
  apply (build_cu_func_after_compile _ _ _ _
           Toy.Template Toy.render Toy.text_error_template
           Toy.SourceModule Toy.get_function
           Toy.good_cu_source Toy.good_cu_source [] Toy.kernel false
           Toy.good_cu_source Toy.good_cu_source);
    reflexivity.
Defined.

End Builders.

(* ================================================================== *)
(** ** The tolerance check: [TestSimODE._check_match]                 *)
(* ================================================================== *)

Module CheckMatch.

Local Open Scope Q_scope.

(** An array entry: a finite number, or one of [nan], [inf], [-inf]. *)
Inductive number : Type :=
  | Fin (q : Q)
  | NonFinite.

(** [np.isfinite]. *)
Definition isfinite (x : number) : bool :=
  match x with
  | Fin _ => true
  | NonFinite => false
  end.

(** The entry test of [np.testing.assert_allclose(actual, desired, rtol, atol)]:
    [|actual - desired| <= atol + rtol * |desired|].  A desired entry that is
    not finite never matches a finite actual one; [_check_match] has
    asserted that every actual entry is finite before it compares. *)
Definition isclose (rtol atol : Q) (actual desired : number) : bool :=
  match actual, desired with
  | Fin a, Fin d => Qle_bool (Qabs (a - d)) (atol + rtol * Qabs d)
  | _, _ => false
  end.

(** Two lists of the same length whose entries are related pairwise. *)
Fixpoint all2 {A B : Type} (p : A -> B -> bool) (l1 : list A) (l2 : list B)
    : bool :=
  match l1, l2 with
  | [], [] => true
  | a :: l1', b :: l2' => p a b && all2 p l1' l2'
  | _, _ => false
  end.

(** A time slice [actual[t]] has the axes (state variable, node); a time
    slice [expected[t]] has the axes (state variable, node, mode) and is
    read as [expected[t, :, :, 0]]. *)
Definition slice : Type := list (list number).
Definition slice4 : Type := list (list (list number)).

(** An entry of the actual slice against the mode-0 entry of the expected
    one. *)
Definition at_mode0 (p : number -> number -> bool)
    (x : number) (modes : list number) : bool :=
  match modes with
  | d :: _ => p x d
  | [] => false
  end.

(** [assert_allclose(actual[t], expected[t, :, :, 0], rtol, atol)] on slices
    of one shape. *)
Definition assert_allclose (a : slice) (e : slice4) (rtol atol : Q) : bool :=
  all2 (all2 (at_mode0 (isclose rtol atol))) a e.

(** [np.max(np.abs(actual[0] - expected[0, :, :, 0]))] evaluates without an
    error: both slices exist, have one shape and are not empty. *)
Definition maxtol_defined (expected : list slice4) (actual : list slice) : bool :=
  match actual, expected with
  | a0 :: _, e0 :: _ =>
      all2 (all2 (at_mode0 (fun _ _ => true))) a0 e0 &&
      negb (forallb (fun row => match row with [] => true | _ => false end) a0)
  | _, _ => false
  end.

(** The two tolerances passed at step [t]: positionally, [rtol] first and
    [atol] second. *)
Definition rtol_at (t : nat) : Q := 2e-5 * inject_Z (Z.of_nat t) * 2.
Definition atol_at (t : nat) : Q := 1e-5 * inject_Z (Z.of_nat t) * 2.

(** [_check_match(expected, actual)]: [true] when the method returns,
    [false] when an assertion fails or an indexing or shape error is raised.
    Slices of unequal shapes are rejected (broadcasting a length-one axis is
    not modelled); the progress lines it prints are left out. *)
Definition _check_match (expected : list slice4) (actual : list slice) : bool :=
  forallb (forallb (forallb isfinite)) actual &&
  maxtol_defined expected actual &&
  forallb
    (fun t =>
       match nth_error actual t, nth_error expected t with
       | Some a, Some e => assert_allclose a e (rtol_at t) (atol_at t)
       | _, _ => false
       end)
    (seq 1 (length actual - 1)).

(** Agreement of two entries within an absolute and a relative tolerance. *)
Definition within (abs_tol rel_tol : Q) (actual desired : number) : Prop :=
  exists a d : Q,
    actual = Fin a /\ desired = Fin d /\
    Qabs (a - d) <= abs_tol + rel_tol * Qabs d.

(** Agreement of a slice with mode 0 of the expected slice, entry by
    entry. *)
Definition slice_within (abs_tol rel_tol : Q) (a : slice) (e : slice4) : Prop :=
  Forall2 (Forall2 (fun x modes =>
                      exists d rest, modes = d :: rest /\
                                     within abs_tol rel_tol x d)) a e.

(** The step index as a rational. *)
Definition step (t : nat) : Q := inject_Z (Z.of_nat t).

(** *** Boolean checks and their meaning *)

Lemma all2_Forall2 {A B : Type} (p : A -> B -> bool) l1 l2 :
  all2 p l1 l2 = true <-> Forall2 (fun a b => p a b = true) l1 l2.
Proof.
  revert l2. induction l1 as [|a l1 IH]; intros [|b l2]; simpl.
  - split; [constructor | reflexivity].
  - split; [discriminate | intros H; inversion H].
  - split; [discriminate | intros H; inversion H].
  - rewrite andb_true_iff, IH. split.
    + intros [H1 H2]. constructor; assumption.
    + intros H. inversion H; subst. split; assumption.
Qed.

Lemma Forall2_iff {A B : Type} (P Q : A -> B -> Prop) l1 l2 :
  (forall a b, P a b <-> Q a b) -> Forall2 P l1 l2 <-> Forall2 Q l1 l2.
Proof.
  intros HPQ. split; induction 1; constructor; try assumption; apply HPQ;
    assumption.
Qed.

Lemma isclose_within rtol atol x d :
  isclose rtol atol x d = true <-> within atol rtol x d.
Proof.
  unfold isclose, within. destruct x as [a|], d as [b|].
  - rewrite Qle_bool_iff. split.
    + intros H. exists a, b. repeat split. exact H.
    + intros (a' & b' & Ha & Hb & H). injection Ha as <-. injection Hb as <-.
      exact H.
  - split; [discriminate | intros (a' & b' & _ & Hb & _); discriminate].
  - split; [discriminate | intros (a' & b' & Ha & _); discriminate].
  - split; [discriminate | intros (a' & b' & Ha & _); discriminate].
Qed.

Lemma within_tolerances abs1 rel1 abs2 rel2 x d :
  abs1 == abs2 -> rel1 == rel2 ->
  within abs1 rel1 x d <-> within abs2 rel2 x d.
Proof.
  intros Habs Hrel. unfold within.
  split; intros (a & b & Ha & Hb & H); exists a, b; repeat split;
    try assumption.
  - rewrite <- Habs, <- Hrel. exact H.
  - rewrite Habs, Hrel. exact H.
Qed.

Lemma assert_allclose_within a e rtol atol abs_tol rel_tol :
  atol == abs_tol -> rtol == rel_tol ->
  assert_allclose a e rtol atol = true <-> slice_within abs_tol rel_tol a e.
Proof.
  intros Habs Hrel. unfold assert_allclose, slice_within.
  rewrite all2_Forall2. apply Forall2_iff. intros row erow.
  rewrite all2_Forall2. apply Forall2_iff. intros x modes.
  unfold at_mode0. destruct modes as [|d rest].
  - split; [discriminate | intros (d & rest & H & _); discriminate].
  - rewrite isclose_within, (within_tolerances _ _ _ _ x d Habs Hrel). split.
    + intros H. exists d, rest. split; [reflexivity | exact H].
    + intros (d' & rest' & Heq & H). injection Heq as <- <-. exact H.
Qed.

Lemma rtol_at_value t : rtol_at t == 4e-5 * step t.
Proof.
  unfold rtol_at, step.
  assert (E1 : 2e-5 == 1 # 50000) by (vm_compute; reflexivity).
  assert (E2 : 4e-5 == 1 # 25000) by (vm_compute; reflexivity).
  rewrite E1, E2. ring.
Qed.

Lemma atol_at_value t : atol_at t == 2e-5 * step t.
Proof.
  unfold atol_at, step.
  assert (E1 : 1e-5 == 1 # 100000) by (vm_compute; reflexivity).
  assert (E2 : 2e-5 == 1 # 50000) by (vm_compute; reflexivity).
  rewrite E1, E2. ring.
Qed.

(** *** Further properties of the check *)

(** A slice [a] as an expected slice whose single mode is [a]. *)
Definition single_mode (a : slice) : slice4 := map (map (fun x => [x])) a.

Lemma all2_shape_inner (r r' : list number) (erow : list (list number)) :
  length r = length r' ->
  all2 (at_mode0 (fun _ _ => true)) r erow =
  all2 (at_mode0 (fun _ _ => true)) r' erow.
Proof.
  revert r' erow. induction r as [|x r IH]; intros [|x' r'] erow H;
    try discriminate; [reflexivity|].
  destruct erow as [|m erow]; simpl; [reflexivity|].
  rewrite (IH r' erow) by (simpl in H; lia). reflexivity.
Qed.

Lemma all2_shape (a a' : slice) (e : slice4) :
  Forall2 (fun r r' => length r = length r') a a' ->
  all2 (all2 (at_mode0 (fun _ _ => true))) a e =
  all2 (all2 (at_mode0 (fun _ _ => true))) a' e.
Proof.
  intros H. revert e. induction H as [|r r' a a' Hr Ha IH]; intros e;
    [reflexivity|].
  destruct e as [|erow e]; simpl; [reflexivity|].
  rewrite (all2_shape_inner r r' erow Hr), IH. reflexivity.
Qed.

Lemma empty_rows_shape (a a' : slice) :
  Forall2 (fun r r' => length r = length r') a a' ->
  forallb (fun row => match row with [] => true | _ => false end) a =
  forallb (fun row => match row with [] => true | _ => false end) a'.
Proof.
  induction 1 as [|r r' a a' Hr Ha IH]; [reflexivity|]. simpl.
  rewrite IH. destruct r, r'; simpl in *; try discriminate; reflexivity.
Qed.

Lemma forallb_agree {A : Type} (f g : A -> bool) (l : list A) :
  (forall x, In x l -> f x = g x) -> forallb f l = forallb g l.
Proof.
  induction l as [|x l IH]; intros H; simpl; [reflexivity|].
  rewrite (H x) by (left; reflexivity).
  rewrite IH by (intros y Hy; apply H; right; exact Hy). reflexivity.
Qed.

(** The step-0 slice of the trajectory is never compared with the
    reference: replacing it by any finite slice of the same shape does not
    change the outcome of [_check_match]. *)
Theorem check_match_ignores_step_0
    (e0 : slice4) (later_expected : list slice4)
    (a0 a0' : slice) (later_actual : list slice) :
  forallb (forallb isfinite) a0 = true ->
  forallb (forallb isfinite) a0' = true ->
  Forall2 (fun r r' => length r = length r') a0 a0' ->
  _check_match (e0 :: later_expected) (a0 :: later_actual) =
  _check_match (e0 :: later_expected) (a0' :: later_actual).
Proof.
  intros Hfin Hfin' Hshape. unfold _check_match, maxtol_defined.
  change (forallb (forallb (forallb isfinite)) (a0 :: later_actual))
    with (forallb (forallb isfinite) a0 &&
          forallb (forallb (forallb isfinite)) later_actual).
  change (forallb (forallb (forallb isfinite)) (a0' :: later_actual))
    with (forallb (forallb isfinite) a0' &&
          forallb (forallb (forallb isfinite)) later_actual).
  rewrite Hfin, Hfin', (all2_shape a0 a0' e0 Hshape),
    (empty_rows_shape a0 a0' Hshape).
  f_equal. simpl length. apply forallb_agree.
  intros t Ht. apply in_seq in Ht.
  destruct t as [|t]; [lia | reflexivity].
Qed.

Lemma step_nonneg t : 0 <= step t.
Proof.
  unfold step. change 0 with (inject_Z 0). rewrite <- Zle_Qle. lia.
Qed.

Lemma step_le t t' : (t <= t')%nat -> step t <= step t'.
Proof. intros H. unfold step. rewrite <- Zle_Qle. lia. Qed.

Lemma within_grows abs_tol rel_tol abs_tol' rel_tol' x d :
  abs_tol <= abs_tol' -> rel_tol <= rel_tol' ->
  within abs_tol rel_tol x d -> within abs_tol' rel_tol' x d.
Proof.
  intros Habs Hrel (a & b & Ha & Hb & H). exists a, b. repeat split;
    try assumption.
  eapply Qle_trans; [exact H|].
  apply Qplus_le_compat; [exact Habs|].
  apply Qmult_le_compat_r; [exact Hrel | apply Qabs_nonneg].
Qed.

Lemma Forall2_impl {A B : Type} (P Q : A -> B -> Prop) l1 l2 :
  (forall a b, P a b -> Q a b) -> Forall2 P l1 l2 -> Forall2 Q l1 l2.
Proof. intros H. induction 1; constructor; auto. Qed.

(** The envelope only widens with the step: two slices that pass with the
    tolerances of step [t] pass with the tolerances of any later step. *)
Theorem assert_allclose_later_step (a : slice) (e : slice4) (t t' : nat) :
  (t <= t')%nat ->
  assert_allclose a e (rtol_at t) (atol_at t) = true ->
  assert_allclose a e (rtol_at t') (atol_at t') = true.
Proof.
  intros Ht H.
  apply (assert_allclose_within a e _ _ _ _
           (atol_at_value t) (rtol_at_value t)) in H.
  apply (assert_allclose_within a e _ _ _ _
           (atol_at_value t') (rtol_at_value t')).
  pose proof (step_le t t' Ht) as Hstep.
  assert (E2 : 0 <= 2e-5) by (vm_compute; discriminate).
  assert (E4 : 0 <= 4e-5) by (vm_compute; discriminate).
  unfold slice_within in *.
  eapply Forall2_impl; [|exact H]. intros row erow Hrow.
  eapply Forall2_impl; [|exact Hrow].
  intros x modes (d & rest & Hm & Hw). exists d, rest. split; [exact Hm|].
  eapply within_grows; [| |exact Hw].
  - rewrite !(Qmult_comm 2e-5). apply Qmult_le_compat_r; assumption.
  - rewrite !(Qmult_comm 4e-5). apply Qmult_le_compat_r; assumption.
Qed.

Lemma all2_single_mode (p : number -> number -> bool) (row : list number) :
  all2 (at_mode0 p) row (map (fun x => [x]) row) = forallb (fun x => p x x) row.
Proof. induction row as [|x row IH]; simpl; [reflexivity | now rewrite IH]. Qed.

Lemma isclose_self t x : isfinite x = true -> isclose (rtol_at t) (atol_at t) x x = true.
Proof.
  destruct x as [a|]; [intros _ | discriminate]. unfold isclose.
  apply Qle_bool_iff.
  assert (E : a - a == 0) by ring. rewrite E.
  rewrite atol_at_value, rtol_at_value.
  assert (E2 : 0 <= 2e-5) by (vm_compute; discriminate).
  assert (E4 : 0 <= 4e-5) by (vm_compute; discriminate).
  pose proof (step_nonneg t) as Hs. pose proof (Qabs_nonneg a) as Ha.
  change (Qabs 0) with 0.
  apply Qle_trans with (0 + 0); [apply Qle_refl|].
  apply Qplus_le_compat; repeat apply Qmult_le_0_compat; assumption.
Qed.

Lemma assert_allclose_self t (a : slice) :
  forallb (forallb isfinite) a = true ->
  assert_allclose a (single_mode a) (rtol_at t) (atol_at t) = true.
Proof.
  unfold assert_allclose, single_mode.
  induction a as [|row a IH]; simpl; [reflexivity|].
  rewrite andb_true_iff. intros [Hrow Ha].
  rewrite IH by exact Ha. rewrite andb_true_r, all2_single_mode.
  rewrite forallb_forall in *. intros x Hx. apply isclose_self, Hrow, Hx.
Qed.

(** A finite trajectory whose step-0 slice is not empty passes the check
    against itself as the reference. *)
Theorem check_match_reflexive (actual : list slice) :
  forallb (forallb (forallb isfinite)) actual = true ->
  maxtol_defined (map single_mode actual) actual = true ->
  _check_match (map single_mode actual) actual = true.
Proof.
  intros Hfin Hmax. unfold _check_match. rewrite Hfin, Hmax. simpl.
  apply forallb_forall. intros t Ht.
  rewrite nth_error_map.
  destruct (nth_error actual t) as [a|] eqn:E; simpl.
  - apply assert_allclose_self.
    rewrite forallb_forall in Hfin. apply Hfin. eapply nth_error_In, E.
  - apply in_seq in Ht. apply nth_error_None in E. lia.
Qed.

(** A trajectory of three steps on one node. *)
Definition ramp : list slice := [[[Fin 0]]; [[Fin 1]]; [[Fin 2]]].

Lemma check_match_ignores_step_0_witness :
  _check_match (map single_mode ramp) ([[Fin 0]] :: tl ramp) =
  _check_match (map single_mode ramp) ([[Fin 1000]] :: tl ramp).
Proof.
  apply (check_match_ignores_step_0 [[[Fin 0]]] (tl (map single_mode ramp))
           [[Fin 0]] [[Fin 1000]] (tl ramp)).
  - reflexivity.
  - reflexivity.
  - repeat constructor.
Defined.

Lemma assert_allclose_later_step_witness :
  assert_allclose [[Fin (1024 + 1 / 32)]] [[[Fin 1024]]]
    (rtol_at 5) (atol_at 5) = true.
Proof.
  apply (assert_allclose_later_step [[Fin (1024 + 1 / 32)]] [[[Fin 1024]]] 1 5).
  - lia.
  - vm_compute. reflexivity.
Defined.

Lemma check_match_reflexive_witness :
  _check_match (map single_mode ramp) ramp = true.
Proof.
  apply check_match_reflexive; vm_compute; reflexivity.
Defined.

End CheckMatch.

(* ================================================================== *)
(** ** One Euler-Maruyama step: [TestPyCUDABasics.flow] and the kernel
       rendered by [TestMako.test_template]                            *)
(* ================================================================== *)

Module Flow.

Section Arithmetic.

(** The numbers of the arrays and their arithmetic are parameters: [lit]
    reads a decimal literal, [fpow] is [**] with an integer exponent and
    [sqrt] is [math.sqrt].  Nothing is assumed about them, so that what is
    proved of the two flows holds for exact and for rounded arithmetic
    alike. *)
Variable F : Type.
Variable lit : Q -> F.
Variables fadd fsub fmul fdiv : F -> F -> F.
Variable fpow : F -> Z -> F.
Variable sqrt : F -> F.

(** A one-dimensional array over the nodes, and an array with the two rows
    that [x, y = X] unpacks; the two rows of a NumPy array have one
    length. *)
Definition vec : Type := list F.
Definition array2 : Type := (vec * vec)%type.

(** A value of a NumPy expression: a Python scalar or an array over the
    nodes. *)
Inductive val : Type :=
  | Sc (q : F)
  | Vc (v : vec).

(** Entry-wise operation of two arrays of one length. *)
Fixpoint zip_with (f : F -> F -> F) (u v : vec) : vec :=
  match u, v with
  | a :: u', b :: v' => f a b :: zip_with f u' v'
  | _, _ => []
  end.

(** A binary operator of NumPy.  A scalar operand and an array of length
    one are broadcast over the other array; two arrays of other, unequal
    lengths cannot be combined: [None] is the [ValueError] NumPy raises. *)
Definition binop (f : F -> F -> F) (a b : val) : option val :=
  match a, b with
  | Sc p, Sc q => Some (Sc (f p q))
  | Sc p, Vc v => Some (Vc (map (f p) v))
  | Vc u, Sc q => Some (Vc (map (fun p => f p q) u))
  | Vc u, Vc v =>
      if Nat.eqb (length u) (length v) then Some (Vc (zip_with f u v))
      else match u, v with
           | [p], _ => Some (Vc (map (f p) v))
           | _, [q] => Some (Vc (map (fun p => f p q) u))
           | _, _ => None
           end
  end.

(** The operators on the results of subexpressions: an error in an operand
    is the error of the expression. *)
Definition on_values (f : F -> F -> F) (a b : option val) : option val :=
  match a, b with
  | Some u, Some v => binop f u v
  | _, _ => None
  end.

Definition add := on_values fadd.
Definition sub := on_values fsub.
Definition mul := on_values fmul.
Definition div := on_values fdiv.

(** [a ** n] for an integer literal [n]. *)
Definition pow (a : option val) (n : Z) : option val :=
  match a with
  | Some (Sc p) => Some (Sc (fpow p n))
  | Some (Vc u) => Some (Vc (map (fun p => fpow p n) u))
  | None => None
  end.

Definition arr (v : vec) : option val := Some (Vc v).
Definition num (q : F) : option val := Some (Sc q).

(** [row[...] = value], the store of [dX[i] = value]: the value must have
    the length of the row, or be a scalar or an array of length one, which
    fill the row; any other length is a [ValueError]. *)
Definition store (row : vec) (value : option val) : option vec :=
  match value with
  | Some (Sc q) => Some (map (fun _ => q) row)
  | Some (Vc v) =>
      if Nat.eqb (length v) (length row) then Some v
      else match v with
           | [q] => Some (map (fun _ => q) row)
           | _ => None
           end
  | None => None
  end.

(** [row += value], one row of [X += value]: the sum is stored back into
    the row, so it must have the length of the row. *)
Definition iadd (row : vec) (value : option val) : option vec :=
  store row (add (arr row) value).

(** [TestPyCUDABasics.flow(dX, X, Z)]: the arrays [dX] and [X] after the
    call, which updates both in place, or [None] when a store or an
    operation raises. *)
Definition flow (dX X Z : array2) : option (array2 * array2) :=
  let dt := lit 0.1 in
  let sqrt_dt := sqrt (lit 0.1) in
  let '(x, y) := X in
  match
    store (fst dX)
      (mul (add (sub (arr x) (div (pow (arr x) 3) (num (lit 3)))) (arr y))
           (num (lit 3))),
    store (snd dX) (div (sub (num (lit 1.01)) (arr x)) (num (lit 3)))
  with
  | Some dX0, Some dX1 =>
      let increment drow zrow :=
        add (mul (num dt) (arr drow))
            (mul (mul (num sqrt_dt) (num (lit 0.1))) (arr zrow)) in
      match iadd x (increment dX0 (fst Z)), iadd y (increment dX1 (snd Z)) with
      | Some x', Some y' => Some ((dX0, dX1), (x', y'))
      | _, _ => None
      end
  | _, _ => None
  end.

(** *** The template of [test_template]

    The drift expressions reach the template as Python source text; they are
    kept as syntax and evaluated where the rendered kernel evaluates them. *)
Inductive pyexpr : Type :=
  | Lit (q : Q)
  | Name (id : string)
  | Add (a b : pyexpr)
  | Sub (a b : pyexpr)
  | Mul (a b : pyexpr)
  | Div (a b : pyexpr)
  | Pow (a : pyexpr) (n : Z).

(** The local variables of the kernel. *)
Definition env : Type := list (string * val).

Fixpoint lookup (id : string) (e : env) : option val :=
  match e with
  | [] => None
  | (k, v) :: rest => if String.eqb k id then Some v else lookup id rest
  end.

(** Evaluation of an expression of the kernel; [None] is the [NameError]
    of an unbound name or the [ValueError] of an operation. *)
Fixpoint eval (e : env) (x : pyexpr) : option val :=
  match x with
  | Lit q => num (lit q)
  | Name id => lookup id e
  | Add a b => add (eval e a) (eval e b)
  | Sub a b => sub (eval e a) (eval e b)
  | Mul a b => mul (eval e a) (eval e b)
  | Div a b => div (eval e a) (eval e b)
  | Pow a n => pow (eval e a) n
  end.

(** The content mapping of a flow template: two drift expressions as text,
    and the numbers [dt] and [sigma]. *)
Record content : Type := Content {
  drift_X : pyexpr;
  drift_Y : pyexpr;
  dt : F;
  sigma : F
}.

(** The kernel [flow] that the template of [test_template] renders to:
    [[
      def flow(dX, X, Z):
          x, y = X
          dX[0] = ${drift_X}
          dX[1] = ${drift_Y}
          X += ${dt} * dX + ${math.sqrt(dt)} * ${sigma} * Z
    ]]
    The numbers are pasted as literals that read back as the same numbers,
    [math.sqrt(dt)] being computed while rendering. *)
Definition rendered_flow (c : content) (dX X Z : array2)
    : option (array2 * array2) :=
  let '(x, y) := X in
  let locals : env := [("x"%string, Vc x); ("y"%string, Vc y)] in
  match
    store (fst dX) (eval locals (drift_X c)),
    store (snd dX) (eval locals (drift_Y c))
  with
  | Some dX0, Some dX1 =>
      let increment drow zrow :=
        add (mul (num (dt c)) (arr drow))
            (mul (mul (num (sqrt (dt c))) (num (sigma c))) (arr zrow)) in
      match iadd x (increment dX0 (fst Z)), iadd y (increment dX1 (snd Z)) with
      | Some x', Some y' => Some ((dX0, dX1), (x', y'))
      | _, _ => None
      end
  | _, _ => None
  end.

(** The content of [test_template]: [drift_X] is the text
    [(x - x**3/3 + y)*3] and [drift_Y] the text [(1.01 - x) / 3]. *)
Definition test_content : content :=
  {| drift_X :=
       Mul (Add (Sub (Name "x") (Div (Pow (Name "x") 3) (Lit 3))) (Name "y"))
           (Lit 3);
     drift_Y := Div (Sub (Lit 1.01) (Name "x")) (Lit 3);
     dt := lit 0.1;
     sigma := lit 0.1 |}.

(** Row [r] (0 or 1), node [k] of an array. *)
Definition entry (A : array2) (r k : nat) : F :=
  nth k (match r with O => fst A | _ => snd A end) (lit 0).

(** The shape (2, n). *)
Definition shape2 (n : nat) (A : array2) : Prop :=
  length (fst A) = n /\ length (snd A) = n.

(** *** The rendered kernel against the reference *)

(** With the content of [test_template] the rendered kernel performs the
    operations of the reference, in the same order, for every arithmetic. *)
Lemma rendered_flow_is_flow (dX X Z : array2) :
  rendered_flow test_content dX X Z = flow dX X Z.
Proof. destruct X as [x y]. reflexivity. Qed.

(** *** Lengths through the operations *)

(** An array of length [n], and a scalar, as results. *)
Definition array_of (n : nat) (o : option val) : Prop :=
  exists v, o = Some (Vc v) /\ length v = n.

Definition scalar (o : option val) : Prop := exists q, o = Some (Sc q).

Lemma length_zip_with f (u v : vec) n :
  length u = n -> length v = n -> length (zip_with f u v) = n.
Proof.
  revert v n. induction u as [|a u IH]; intros [|b v] n Hu Hv; simpl in *;
    try congruence.
  destruct n as [|n]; [discriminate|]. f_equal. apply IH; congruence.
Qed.

Lemma array_arr v : array_of (length v) (arr v).
Proof. exists v. split; reflexivity. Qed.

Lemma scalar_num q : scalar (num q).
Proof. exists q. reflexivity. Qed.

Lemma on_values_arrays f n a b :
  array_of n a -> array_of n b -> array_of n (on_values f a b).
Proof.
  intros (u & -> & Hu) (v & -> & Hv). simpl.
  replace (Nat.eqb (length u) (length v)) with true
    by (symmetry; apply Nat.eqb_eq; congruence).
  eexists. split; [reflexivity|]. apply length_zip_with; assumption.
Qed.

Lemma on_values_array_scalar f n a b :
  array_of n a -> scalar b -> array_of n (on_values f a b).
Proof.
  intros (u & -> & Hu) (q & ->). simpl.
  eexists. split; [reflexivity|]. now rewrite length_map.
Qed.

Lemma on_values_scalar_array f n a b :
  scalar a -> array_of n b -> array_of n (on_values f a b).
Proof.
  intros (q & ->) (v & -> & Hv). simpl.
  eexists. split; [reflexivity|]. now rewrite length_map.
Qed.

Lemma on_values_scalars f a b : scalar a -> scalar b -> scalar (on_values f a b).
Proof. intros (p & ->) (q & ->). simpl. eexists. reflexivity. Qed.

Lemma pow_array n a k : array_of n a -> array_of n (pow a k).
Proof.
  intros (u & -> & Hu). simpl. eexists. split; [reflexivity|].
  now rewrite length_map.
Qed.

(** Two arrays of unequal lengths, one of them of length one. *)
Lemma on_values_stretch_right f m a b :
  array_of m a -> array_of 1 b -> array_of m (on_values f a b).
Proof.
  intros (u & -> & Hu) (v & -> & Hv). simpl.
  destruct v as [|q [|q' v]]; try discriminate.
  destruct (Nat.eqb_spec (length u) (length [q])) as [E|E].
  - eexists. split; [reflexivity|]. apply length_zip_with; simpl in *; lia.
  - destruct u as [|p [|p' u]]; simpl in *; try lia;
      (eexists; split; [reflexivity|]; simpl; rewrite ?length_map; lia).
Qed.

Lemma on_values_stretch_left f m a b :
  array_of 1 a -> array_of m b -> array_of m (on_values f a b).
Proof.
  intros (u & -> & Hu) (v & -> & Hv). simpl.
  destruct u as [|p [|p' u]]; try discriminate.
  destruct (Nat.eqb_spec (length [p]) (length v)) as [E|E].
  - eexists. split; [reflexivity|]. apply length_zip_with; simpl in *; lia.
  - eexists. split; [reflexivity|]. now rewrite length_map.
Qed.

Lemma store_array row {n value} :
  length row = n -> array_of n value ->
  exists v, store row value = Some v /\ length v = n.
Proof.
  intros Hrow (v & -> & Hv). simpl.
  replace (Nat.eqb (length v) (length row)) with true
    by (symmetry; apply Nat.eqb_eq; congruence).
  exists v. split; [reflexivity | exact Hv].
Qed.

Lemma store_fill row {value} :
  array_of 1 value ->
  exists v, store row value = Some v /\ length v = length row.
Proof.
  intros (v & -> & Hv). simpl.
  destruct v as [|q [|q' v]]; try discriminate.
  destruct (Nat.eqb_spec (length [q]) (length row)) as [E|E].
  - exists [q]. split; [reflexivity | exact E].
  - eexists. split; [reflexivity|]. now rewrite length_map.
Qed.

Lemma store_mismatch row {m value} :
  array_of m value -> m <> length row -> m <> 1 -> store row value = None.
Proof.
  intros (v & -> & Hv) Hm H1. simpl.
  destruct (Nat.eqb_spec (length v) (length row)) as [E|E]; [lia|].
  destruct v as [|q [|q' v]]; simpl in *; try reflexivity. lia.
Qed.

(** The two drift expressions and the increment, for rows of length [n]. *)
Lemma drift_x_array {n} {x y : vec} :
  length x = n -> length y = n ->
  array_of n
    (mul (add (sub (arr x) (div (pow (arr x) 3) (num (lit 3)))) (arr y))
         (num (lit 3))).
Proof.
  intros Hx Hy. subst n.
  apply on_values_array_scalar; [|apply scalar_num].
  apply on_values_arrays; [|rewrite <- Hy; apply array_arr].
  apply on_values_arrays; [apply array_arr|].
  apply on_values_array_scalar; [|apply scalar_num].
  apply pow_array, array_arr.
Qed.

Lemma drift_y_array (x : vec) :
  array_of (length x) (div (sub (num (lit 1.01)) (arr x)) (num (lit 3))).
Proof.
  apply on_values_array_scalar; [|apply scalar_num].
  apply on_values_scalar_array; [apply scalar_num | apply array_arr].
Qed.

Lemma increment_array {n} (d s : F) {drow zrow : vec} :
  length drow = n -> length zrow = n ->
  array_of n (add (mul (num d) (arr drow)) (mul (num s) (arr zrow))).
Proof.
  intros Hd Hz. subst n. apply on_values_arrays.
  - apply on_values_scalar_array; [apply scalar_num | apply array_arr].
  - rewrite <- Hz.
    apply on_values_scalar_array; [apply scalar_num | apply array_arr].
Qed.

Lemma iadd_array {n row value} :
  length row = n -> array_of n value ->
  exists v, iadd row value = Some v /\ length v = n.
Proof.
  intros Hrow Hvalue. unfold iadd. apply store_array; [exact Hrow|].
  apply on_values_arrays; [rewrite <- Hrow; apply array_arr | exact Hvalue].
Qed.

(** *** Shapes *)

(** For arrays [dX], [X] and [Z] of one shape (2, n), [flow] returns, and
    the drift and the state it leaves have that shape.  When the rows of
    [dX] have another length than those of [X] and [Z], [flow] raises: the
    drift does not fit the rows of [dX], or the increment does not fit the
    rows of [X]. *)
Theorem flow_keeps_shape (n m : nat) (dX X Z : array2) :
  shape2 n X -> shape2 n Z -> shape2 m dX ->
  (m = n ->
   exists dX' X', flow dX X Z = Some (dX', X') /\
                  shape2 n dX' /\ shape2 n X') /\
  (m <> n -> flow dX X Z = None).
Proof.
  destruct X as [x y], Z as [z0 z1], dX as [d0 d1].
  intros [Hx Hy] [Hz0 Hz1] [Hd0 Hd1].
  simpl in Hx, Hy, Hz0, Hz1, Hd0, Hd1.
  pose proof (drift_x_array Hx Hy) as Hdx.
  pose proof (drift_y_array x) as Hdy. rewrite Hx in Hdy.
  split.
  - intros ->. unfold flow. cbv beta iota zeta delta [fst snd].
    destruct (store_array _ Hd0 Hdx) as (dX0 & -> & HdX0).
    destruct (store_array _ Hd1 Hdy) as (dX1 & -> & HdX1).
    cbv zeta.
    destruct (iadd_array Hx
                (increment_array (lit 0.1)
                   (fmul (sqrt (lit 0.1)) (lit 0.1)) HdX0 Hz0))
      as (x' & Hx' & Hlx).
    destruct (iadd_array Hy
                (increment_array (lit 0.1)
                   (fmul (sqrt (lit 0.1)) (lit 0.1)) HdX1 Hz1))
      as (y' & Hy' & Hly).
    simpl in Hx', Hy'. simpl. rewrite Hx', Hy'.
    exists (dX0, dX1), (x', y'). repeat split; assumption.
  - intros Hmn. unfold flow. cbv beta iota zeta delta [fst snd].
    destruct (Nat.eq_dec n 1) as [->|Hn1].
    + destruct (store_fill d0 Hdx) as (dX0 & -> & HdX0).
      destruct (store_fill d1 Hdy) as (dX1 & -> & HdX1).
      cbv zeta.
      assert (Hinc : array_of m
                (add (mul (num (lit 0.1)) (arr dX0))
                   (mul (mul (num (sqrt (lit 0.1))) (num (lit 0.1)))
                      (arr z0)))).
      { apply on_values_stretch_right.
        - rewrite <- Hd0, <- HdX0.
          apply on_values_scalar_array; [apply scalar_num | apply array_arr].
        - rewrite <- Hz0.
          apply on_values_scalar_array; [apply scalar_num | apply array_arr]. }
      assert (Hsum : array_of m
                (add (arr x)
                   (add (mul (num (lit 0.1)) (arr dX0))
                      (mul (mul (num (sqrt (lit 0.1))) (num (lit 0.1)))
                         (arr z0))))).
      { apply on_values_stretch_left; [rewrite <- Hx; apply array_arr|].
        exact Hinc. }
      unfold iadd at 1.
      rewrite (store_mismatch x Hsum) by lia. reflexivity.
    + rewrite (store_mismatch d0 Hdx) by lia. reflexivity.
Qed.

End Arithmetic.

Arguments flow {F}.
Arguments rendered_flow {F}.
Arguments test_content {F}.
Arguments entry {F}.
Arguments shape2 {F}.

(** *** Exact arithmetic *)

Local Open Scope Q_scope.

(** The two flows over the rationals, for a given square-root function. *)
Definition flow_Q (sqrt : Q -> Q) :=
  flow (fun q : Q => q) Qplus Qminus Qmult Qdiv Qpower sqrt.

Definition rendered_flow_Q (sqrt : Q -> Q) :=
  rendered_flow (fun q : Q => q) Qplus Qminus Qmult Qdiv Qpower sqrt
    (test_content (fun q : Q => q)).

Definition entry_Q := entry (fun q : Q => q).

(** The scenario in the words of the claim: the drift of the two-state
    model, and one Euler-Maruyama step of a state variable with [dt = 0.1]
    and additive noise [sigma = 0.1]. *)
Definition drift_x (x y : Q) : Q := (x - x ^ 3 / 3 + y) * 3.
Definition drift_y (x : Q) : Q := (1.01 - x) / 3.
Definition euler_maruyama (sqrt : Q -> Q) (x dx z : Q) : Q :=
  x + (0.1 * dx + sqrt 0.1 * 0.1 * z).

(** The state [X'] is one Euler-Maruyama step from [X] with the noise draw
    [Z], node by node. *)
Definition one_step (sqrt : Q -> Q) (X Z X' : array2 Q) : Prop :=
  forall k, (k < 10)%nat ->
    entry_Q X' 0 k =
      euler_maruyama sqrt (entry_Q X 0 k)
        (drift_x (entry_Q X 0 k) (entry_Q X 1 k)) (entry_Q Z 0 k) /\
    entry_Q X' 1 k =
      euler_maruyama sqrt (entry_Q X 1 k)
        (drift_y (entry_Q X 0 k)) (entry_Q Z 1 k).

Lemma Qabs_diff_self (a : Q) : Qabs (a - a) < 1e-5.
Proof.
  assert (E : a - a == 0) by ring.
  rewrite E. reflexivity.
Qed.

Ltac ten_entries v :=
  do 10 (destruct v as [|? v]; [discriminate|]);
  destruct v; [|discriminate].

Ltac node_by_node :=
  unfold one_step; intros k Hk;
  do 10 (destruct k as [|k]; [split; reflexivity|]); lia.

(** C7.  For the two-state model with drift [dx = (x - x^3/3 + y) * 3] and
    [dy = (1.01 - x) / 3], [dt = 0.1] and additive noise [sigma = 0.1], on
    10-element node vectors: the generated kernel and the reference both
    return, each leaves in [X] the state one Euler-Maruyama step from the
    initial state with the given noise draw, and the two states differ by
    less than [1e-5] in every entry. *)
Theorem generated_flow_matches_reference (sqrt : Q -> Q)
    (dX X Z : array2 Q) :
  shape2 10 dX -> shape2 10 X -> shape2 10 Z ->
  exists dX_generated X_generated dX_reference X_reference : array2 Q,
    rendered_flow_Q sqrt dX X Z = Some (dX_generated, X_generated) /\
    flow_Q sqrt dX_generated X Z = Some (dX_reference, X_reference) /\
    one_step sqrt X Z X_generated /\
    one_step sqrt X Z X_reference /\
    forall r k, (r < 2)%nat -> (k < 10)%nat ->
      Qabs (entry_Q X_generated r k - entry_Q X_reference r k) < 1e-5.
Proof.
  destruct dX as [d0 d1], X as [x y], Z as [z0 z1].
  intros [Hd0 Hd1] [Hx Hy] [Hz0 Hz1].
  simpl in Hd0, Hd1, Hx, Hy, Hz0, Hz1.
  ten_entries d0. ten_entries d1. ten_entries x. ten_entries y.
  ten_entries z0. ten_entries z1.
  eexists _, _, _, _.
  split; [reflexivity|]. split; [reflexivity|].
  split; [node_by_node|]. split; [node_by_node|].
  intros r k _ _. apply Qabs_diff_self.
Qed.

(** A state of all ones with unit noise, and the constant that
    [math.sqrt(0.1)] prints as. *)
Definition ones : array2 Q := (repeat 1 10, repeat 1 10).
Definition sqrt_tenth (q : Q) : Q := 0.31622776601683794.

Lemma generated_flow_matches_reference_witness :
  exists dX_generated X_generated dX_reference X_reference : array2 Q,
    rendered_flow_Q sqrt_tenth ones ones ones =
      Some (dX_generated, X_generated) /\
    flow_Q sqrt_tenth dX_generated ones ones =
      Some (dX_reference, X_reference) /\
    one_step sqrt_tenth ones ones X_generated /\
    one_step sqrt_tenth ones ones X_reference /\
    forall r k, (r < 2)%nat -> (k < 10)%nat ->
      Qabs (entry_Q X_generated r k - entry_Q X_reference r k) < 1e-5.
Proof.
  apply (generated_flow_matches_reference sqrt_tenth ones ones ones);
    split; reflexivity.
Defined.

Lemma flow_keeps_shape_witness :
  (exists dX' X', flow_Q sqrt_tenth ones ones ones = Some (dX', X') /\
                  shape2 10 dX' /\ shape2 10 X') /\
  flow_Q sqrt_tenth ([], []) ones ones = None.
Proof.
  split.
  - apply (proj1 (flow_keeps_shape Q (fun q : Q => q) Qplus Qminus Qmult Qdiv
                    Qpower sqrt_tenth 10 10 ones ones ones
                    (conj eq_refl eq_refl) (conj eq_refl eq_refl)
                    (conj eq_refl eq_refl))).
    reflexivity.
  - apply (proj2 (flow_keeps_shape Q (fun q : Q => q) Qplus Qminus Qmult Qdiv
                    Qpower sqrt_tenth 10 0 ([], []) ones ones
                    (conj eq_refl eq_refl) (conj eq_refl eq_refl)
                    (conj eq_refl eq_refl))).
    discriminate.
Defined.

End Flow.

(* ================================================================== *)
(** ** Coupling without delays: [TestCoupling._eval_cfun_no_delay]    *)
(* ================================================================== *)

Module Coupling.

Local Open Scope Q_scope.

(** Arrays of one, two and three axes. *)
Abbreviation array1 := (list Q).
Abbreviation array2 := (list (list Q)).
Abbreviation array3 := (list (list (list Q))).

Definition get1 (v : array1) (i : nat) : Q := nth i v 0.
Definition get2 (M : array2) (i j : nat) : Q := get1 (nth i M []) j.

(** Entry-wise combination of two lists of one length. *)
Fixpoint zip {A B C : Type} (f : A -> B -> C) (l1 : list A) (l2 : list B)
    : list C :=
  match l1, l2 with
  | a :: l1', b :: l2' => f a b :: zip f l1' l2'
  | _, _ => []
  end.

(** NumPy broadcasting along one axis: an axis of length one is stretched
    to the length of the other operand; otherwise the lengths agree. *)
Definition bzip {A B C : Type} (f : A -> B -> C) (l1 : list A) (l2 : list B)
    : list C :=
  match l1, l2 with
  | [a], _ => map (f a) l2
  | _, [b] => map (fun a => f a b) l1
  | _, _ => zip f l1 l2
  end.

(** [X.reshape((nsvar, 1, nnode))] and [X.reshape((nsvar, nnode, 1))]. *)
Definition reshape_row (X : array2) : array3 := map (fun row => [row]) X.
Definition reshape_col (X : array2) : array3 :=
  map (fun row => map (fun v => [v]) row) X.

(** [A * 0] and [A + B] on arrays of three axes. *)
Definition times0 (A : array3) : array3 := map (map (map (fun v => v * 0))) A.
Definition add3 (A B : array3) : array3 := bzip (bzip (bzip Qplus)) A B.

(** [weights * P]: the two axes of [weights] align with the last two axes
    of [P]. *)
Definition mul23 (weights : array2) (P : array3) : array3 :=
  map (fun Ps => bzip (bzip Qmult) weights Ps) P.

(** [T.sum(axis=1)]: for each state variable, the rows of the matrix added
    up. *)
Definition sum_rows (M : array2) : array1 :=
  fold_left (zip Qplus) M (repeat 0 (length (hd [] M))).
Definition sum_axis1 (T : array3) : array2 := map sum_rows T.

Section Cfun.

(** A coupling function: its [pre] and [post] expressions, as functions of
    numbers applied entry by entry. *)
Variable pre : Q -> Q -> Q.
Variable post : Q -> Q.

(** [cfun.pre(A, B)] on two arrays of one shape, and [cfun.post(gx)]. *)
Definition pre3 (A B : array3) : array3 := zip (zip (zip pre)) A B.
Definition post2 (gx : array2) : array2 := map (map post) gx.

(** [_eval_cfun_no_delay(cfun, weights, X)]. *)
Definition _eval_cfun_no_delay (weights X : array2) : array2 :=
  let x_i := reshape_row X in
  let x_j := reshape_col X in
  let gx :=
    sum_axis1
      (mul23 weights
         (pre3 (add3 x_i (times0 x_j)) (add3 x_j (times0 x_i)))) in
  post2 gx.

(** Modelled from the spec: the coupling kernel rendered from the templates
    [np-coupling.mako], [nb-coupling.mako] and [cu-coupling.mako], which are
    not among the sources.  For each state variable and each target node
    [i], it adds up over the source nodes [j] the terms
    [w[i, j] * pre(x_i, x_j)] from zero and applies [post] to the sum, as
    the loops of the inline kernel of [test_sigmoidal_cfun] do; [w] is the
    weight matrix the caller passes, the transpose of the stored one. *)
Definition coupling_kernel (w state : array2) : array2 :=
  map (fun xs =>
         let n := length xs in
         map (fun i =>
                let x_i := get1 xs i in
                let gx :=
                  fold_left (fun gx j => gx + get2 w i j * pre x_i (get1 xs j))
                    (seq 0 n) 0 in
                post gx)
             (seq 0 n))
      state.

End Cfun.

(** [weights.T] for a square matrix of [n] rows. *)
Definition transpose (n : nat) (weights : array2) : array2 :=
  map (fun i => map (fun row => get1 row i) weights) (seq 0 n).

(** The sum of [f j] over [j < n]. *)
Definition sum_over (n : nat) (f : nat -> Q) : Q :=
  fold_right (fun j acc => f j + acc) 0 (seq 0 n).

(** The closed form of the coupling into target node [i] for state
    variable [s]: [post] of the sum over the source nodes [j] of
    [weights[j, i] * pre(X[s, i], X[s, j])]. *)
Definition closed_form (pre : Q -> Q -> Q) (post : Q -> Q)
    (weights X : array2) (n s i : nat) : Q :=
  post (sum_over n (fun j => get2 weights j i * pre (get2 X s i) (get2 X s j))).

(** The shape (rows, columns) of a matrix. *)
Definition shape (rows cols : nat) (M : array2) : Prop :=
  length M = rows /\ Forall (fun row => length row = cols) M.

(** *** Broadcasting *)

Lemma bzip_single_r {A B C : Type} (f : A -> B -> C) l1 b :
  bzip f l1 [b] = map (fun a => f a b) l1.
Proof. destruct l1 as [|a [|a' l1]]; reflexivity. Qed.

Lemma bzip_same_length {A B C : Type} (f : A -> B -> C) l1 l2 :
  length l1 = length l2 -> bzip f l1 l2 = zip f l1 l2.
Proof.
  destruct l1 as [|a [|a' l1]], l2 as [|b [|b' l2]]; simpl; intros H;
    try discriminate; reflexivity.
Qed.

Lemma zip_map_same {A B C D : Type} (f : A -> B -> C) (g : D -> A) (h : D -> B) l :
  zip f (map g l) (map h l) = map (fun x => f (g x) (h x)) l.
Proof. induction l as [|x l IH]; simpl; [reflexivity | now rewrite IH]. Qed.

Lemma bzip_map_same {A B C D : Type} (f : A -> B -> C) (g : D -> A) (h : D -> B) l :
  bzip f (map g l) (map h l) = map (fun x => f (g x) (h x)) l.
Proof.
  rewrite bzip_same_length by (now rewrite !length_map). apply zip_map_same.
Qed.

Lemma nth_zip (f : Q -> Q -> Q) (u v : array1) i :
  (i < length u)%nat -> (i < length v)%nat ->
  get1 (zip f u v) i = f (get1 u i) (get1 v i).
Proof.
  unfold get1. revert v i. induction u as [|a u IH]; intros [|b v] i Hu Hv;
    simpl in *; try lia.
  destruct i as [|i]; [reflexivity | apply IH; lia].
Qed.

Lemma length_zip {A B C : Type} (f : A -> B -> C) l1 l2 n :
  length l1 = n -> length l2 = n -> length (zip f l1 l2) = n.
Proof.
  revert l2 n. induction l1 as [|a l1 IH]; intros [|b l2] n H1 H2; simpl in *;
    try congruence.
  destruct n as [|n]; [discriminate|]. f_equal. apply IH; congruence.
Qed.

Lemma nth_zip_rows (f : array1 -> array1 -> array1) (M N : array2) j :
  (j < length M)%nat -> (j < length N)%nat ->
  nth j (zip f M N) [] = f (nth j M []) (nth j N []).
Proof.
  revert N j. induction M as [|a M IH]; intros [|b N] j HM HN;
    simpl in *; try lia.
  destruct j as [|j]; [reflexivity | apply IH; lia].
Qed.

Lemma map_over_indices {A B : Type} (f : A -> B) (l : list A) (d : A) :
  map f l = map (fun j => f (nth j l d)) (seq 0 (length l)).
Proof.
  induction l as [|a l IH]; simpl; [reflexivity|].
  f_equal. rewrite <- seq_shift, map_map. exact IH.
Qed.

(** *** The two broadcast operands of [pre] *)

Lemma target_operand (X : array2) :
  add3 (reshape_row X) (times0 (reshape_col X)) =
  map (fun r => map (fun v => map (fun u => u + v * 0) r) r) X.
Proof.
  unfold add3, reshape_row, reshape_col, times0. rewrite map_map.
  rewrite bzip_map_same. apply map_ext. intros r. simpl.
  rewrite !map_map. apply map_ext. intros v. simpl.
  apply bzip_single_r.
Qed.

Lemma source_operand (X : array2) :
  add3 (reshape_col X) (times0 (reshape_row X)) =
  map (fun r => map (fun v => map (fun u => v + u * 0) r) r) X.
Proof.
  unfold add3, reshape_row, reshape_col, times0. rewrite map_map.
  rewrite bzip_map_same. apply map_ext. intros r. simpl.
  rewrite bzip_single_r, map_map. apply map_ext. intros v. simpl.
  rewrite map_map. reflexivity.
Qed.

(** *** Sums *)

Lemma fold_left_Qplus (l : list Q) (a : Q) :
  fold_left Qplus l a == a + fold_right Qplus 0 l.
Proof.
  revert a. induction l as [|x l IH]; intros a; simpl.
  - ring.
  - rewrite IH. ring.
Qed.

Lemma sum_over_fold (n : nat) (f : nat -> Q) :
  sum_over n f = fold_right Qplus 0 (map f (seq 0 n)).
Proof.
  unfold sum_over. induction (seq 0 n) as [|j l IH]; simpl; congruence.
Qed.

Lemma fold_right_Qplus_ext (f g : nat -> Q) (l : list nat) :
  (forall j, In j l -> f j == g j) ->
  fold_right Qplus 0 (map f l) == fold_right Qplus 0 (map g l).
Proof.
  induction l as [|j l IH]; intros H; simpl; [reflexivity|].
  rewrite (H j) by (left; reflexivity).
  rewrite IH by (intros k Hk; apply H; right; exact Hk). reflexivity.
Qed.

(** Adding terms up from zero, left to right, gives the sum over the
    indices. *)
Lemma accumulate_sum (n : nat) (f g : nat -> Q) :
  (forall j, (j < n)%nat -> f j == g j) ->
  fold_left Qplus (map f (seq 0 n)) 0 == sum_over n g.
Proof.
  intros H. rewrite fold_left_Qplus, sum_over_fold, Qplus_0_l.
  apply fold_right_Qplus_ext. intros j Hj. apply in_seq in Hj.
  apply H. lia.
Qed.

Lemma fold_left_accumulate (f : nat -> Q) (l : list nat) (a : Q) :
  fold_left (fun gx j => gx + f j) l a = fold_left Qplus (map f l) a.
Proof. revert a. induction l as [|j l IH]; intros a; simpl; [reflexivity | apply IH]. Qed.

Lemma sum_rows_entry (M : array2) (acc : array1) (n i : nat) :
  Forall (fun row => length row = n) M -> length acc = n -> (i < n)%nat ->
  get1 (fold_left (zip Qplus) M acc) i =
  fold_left Qplus (map (fun row => get1 row i) M) (get1 acc i).
Proof.
  intros HM. revert acc. induction HM as [|row M Hrow HM IH]; intros acc Hacc Hi;
    simpl; [reflexivity|].
  rewrite IH by (try apply length_zip; assumption).
  rewrite nth_zip by lia. reflexivity.
Qed.

Lemma nth_map_in {A B : Type} (f : A -> B) (l : list A) (j : nat) (d : A) (d' : B) :
  (j < length l)%nat -> nth j (map f l) d' = f (nth j l d).
Proof.
  intros Hj. rewrite (nth_indep _ d' (f d)) by (now rewrite length_map).
  apply map_nth.
Qed.

Lemma length_sum_rows (M : array2) (acc : array1) (n : nat) :
  Forall (fun row => length row = n) M -> length acc = n ->
  length (fold_left (zip Qplus) M acc) = n.
Proof.
  intros HM. revert acc. induction HM as [|row M Hrow HM IH]; intros acc Hacc;
    simpl; [exact Hacc|].
  apply IH, length_zip; assumption.
Qed.

Lemma shape_row (rows cols : nat) (M : array2) (j : nat) :
  shape rows cols M -> (j < rows)%nat -> length (nth j M []) = cols.
Proof.
  intros [Hlen Hall] Hj. rewrite Forall_forall in Hall.
  apply Hall, nth_In. lia.
Qed.

Section CfunFacts.

Variable pre : Q -> Q -> Q.
Variable post : Q -> Q.

(** The array [weights * pre(...)] for one state variable with the row of
    states [r]: row [j] (the source) holds, at column [i] (the target), the
    weight [weights[j, i]] times [pre] of the two broadcast operands. *)
Definition weighted (weights : array2) (r : array1) : array2 :=
  bzip (bzip Qmult) weights
    (zip (zip pre)
       (map (fun v => map (fun u => u + v * 0) r) r)
       (map (fun v => map (fun u => v + u * 0) r) r)).

Lemma eval_slices (weights X : array2) :
  _eval_cfun_no_delay pre post weights X =
  map (fun r => map post (sum_rows (weighted weights r))) X.
Proof.
  unfold _eval_cfun_no_delay. cbv zeta.
  rewrite target_operand, source_operand.
  unfold pre3. rewrite zip_map_same.
  unfold mul23, sum_axis1, post2. rewrite !map_map. reflexivity.
Qed.

Lemma weighted_row (weights : array2) (r : array1) (n j : nat) :
  shape n n weights -> length r = n -> (j < n)%nat ->
  nth j (weighted weights r) [] =
  zip Qmult (nth j weights [])
    (map (fun u => pre (u + get1 r j * 0) (get1 r j + u * 0)) r).
Proof.
  intros Hw Hr Hj. unfold weighted.
  rewrite zip_map_same.
  rewrite bzip_same_length by (rewrite length_map; destruct Hw; lia).
  rewrite nth_zip_rows by (rewrite ?length_map; destruct Hw; lia).
  rewrite (nth_map_in _ r j 0) by lia.
  rewrite zip_map_same.
  apply bzip_same_length.
  rewrite length_map, (shape_row _ _ _ j Hw Hj). lia.
Qed.

Lemma weighted_shape (weights : array2) (r : array1) (n : nat) :
  shape n n weights -> length r = n -> shape n n (weighted weights r).
Proof.
  intros Hw Hr.
  assert (Hlen : length (weighted weights r) = n).
  { unfold weighted. rewrite zip_map_same.
    rewrite bzip_same_length by (rewrite length_map; destruct Hw; lia).
    apply length_zip; [apply Hw | now rewrite length_map]. }
  split; [exact Hlen|].
  apply Forall_forall. intros row Hrow.
  destruct (In_nth _ _ [] Hrow) as (j & Hj & <-).
  rewrite (weighted_row _ _ _ j Hw Hr) by lia.
  apply length_zip; [apply (shape_row _ _ _ j Hw); lia | now rewrite length_map].
Qed.

(** The entry of [_eval_cfun_no_delay] for state variable [s] and target
    [i], as the terms are added up. *)
Lemma eval_entry (weights X : array2) (n s i : nat) :
  shape n n weights -> (s < length X)%nat -> length (nth s X []) = n ->
  (i < n)%nat ->
  get2 (_eval_cfun_no_delay pre post weights X) s i =
  post (fold_left Qplus
          (map (fun j => get2 weights j i *
                         pre (get2 X s i + get2 X s j * 0)
                             (get2 X s j + get2 X s i * 0))
               (seq 0 n)) 0).
Proof.
  intros Hw Hs Hr Hi. rewrite eval_slices. unfold get2 at 1.
  rewrite (nth_map_in _ X s []) by exact Hs.
  set (r := nth s X []) in *.
  pose proof (weighted_shape _ _ _ Hw Hr) as [HMlen HMrows].
  assert (Hhd : length (hd [] (weighted weights r)) = n).
  { destruct (weighted weights r) as [|row M]; [simpl in HMlen; lia|].
    inversion HMrows; assumption. }
  unfold get1 at 1.
  rewrite (nth_map_in _ _ i 0)
    by (unfold sum_rows; rewrite (length_sum_rows _ _ _ HMrows);
        rewrite ?repeat_length; lia).
  f_equal. fold (get1 (sum_rows (weighted weights r)) i). unfold sum_rows.
  rewrite (sum_rows_entry _ _ _ _ HMrows) by (rewrite ?repeat_length; lia).
  f_equal.
  - rewrite (map_over_indices _ (weighted weights r) []), HMlen.
    apply map_ext_in. intros j Hj. apply in_seq in Hj.
    rewrite (weighted_row _ _ _ j Hw Hr) by lia.
    rewrite nth_zip
      by (rewrite ?length_map, ?(shape_row _ _ _ j Hw); lia).
    unfold get2. fold r. f_equal.
    unfold get1 at 1. rewrite (nth_map_in _ r i 0) by lia. reflexivity.
  - unfold get1. rewrite Hhd. apply nth_repeat.
Qed.

(** The entry of the kernel for state variable [s] and target [i]. *)
Lemma kernel_entry (w state : array2) (n s i : nat) :
  (s < length state)%nat -> length (nth s state []) = n -> (i < n)%nat ->
  get2 (coupling_kernel pre post w state) s i =
  post (fold_left Qplus
          (map (fun j => get2 w i j * pre (get2 state s i) (get2 state s j))
               (seq 0 n)) 0).
Proof.
  intros Hs Hr Hi. unfold coupling_kernel, get2 at 1.
  rewrite (nth_map_in _ state s []) by exact Hs.
  rewrite Hr. unfold get1 at 1.
  rewrite (nth_map_in _ _ i 0%nat) by (rewrite length_seq; exact Hi).
  rewrite seq_nth by exact Hi. simpl.
  rewrite fold_left_accumulate. reflexivity.
Qed.

(** *** The shape of the result *)

(** [_eval_cfun_no_delay] returns an array of the shape of the state
    array: one row per state variable, one entry per node. *)
Theorem eval_cfun_no_delay_shape (weights X : array2) (nsvar nnode : nat) :
  shape nnode nnode weights -> shape nsvar nnode X ->
  shape nsvar nnode (_eval_cfun_no_delay pre post weights X).
Proof.
  intros Hw [HXlen HXrows]. rewrite eval_slices. split.
  - rewrite length_map. exact HXlen.
  - apply Forall_forall. intros row Hrow. apply in_map_iff in Hrow.
    destruct Hrow as (r & <- & Hr).
    rewrite Forall_forall in HXrows. specialize (HXrows r Hr).
    destruct (weighted_shape _ _ _ Hw HXrows) as [HMlen HMrows].
    rewrite length_map. unfold sum_rows.
    apply length_sum_rows; [exact HMrows|].
    rewrite repeat_length.
    destruct (weighted weights r) as [|row0 M].
    + simpl in *. lia.
    + inversion HMrows; assumption.
Qed.

(** *** The kernel and the reference of [test_sigmoidal_cfun] *)

(** The generated kernel [pre_post] of [test_sigmoidal_cfun], with the
    [pre] and [post] expressions of the coupling function pasted in:
    [[
      for i in range(X.shape[0]):
          gx = 0
          x_i = X[i]
          for j in range(X.shape[0]):
              x_j = X[j]
              gx += pre_expr
          gX[i] = post_expr
    ]] *)
Definition cg_pre_post (X : array1) : array1 :=
  let n := length X in
  map (fun i =>
         let x_i := get1 X i in
         let gx :=
           fold_left (fun gx j => gx + pre x_i (get1 X j)) (seq 0 n) 0 in
         post gx)
      (seq 0 n).

(** The reference [pre_post] of the same test:
    [x_i, x_j = X, X.reshape((-1, 1)) + 0*X], then
    [cfun.post(cfun.pre(x_i, x_j).sum(axis=0))].  The one-axis operands are
    broadcast as rows. *)
Definition pre_post (X : array1) : array1 :=
  let x_i := X in
  let x_j :=
    bzip (bzip Qplus) (map (fun v => [v]) X) [map (fun v => 0 * v) X] in
  let gx := sum_rows (bzip (bzip pre) [x_i] x_j) in
  map post gx.

Lemma pre_post_matrix (X : array1) :
  bzip (bzip pre) [X]
    (bzip (bzip Qplus) (map (fun v => [v]) X) [map (fun v => 0 * v) X]) =
  map (fun v => map (fun u => pre u (v + 0 * u)) X) X.
Proof.
  rewrite bzip_single_r, map_map. simpl. rewrite map_map.
  apply map_ext. intros v. simpl. rewrite map_map.
  rewrite bzip_same_length by (now rewrite length_map).
  rewrite <- (map_id X) at 1. apply zip_map_same.
Qed.

(** For pure [pre] and [post], the generated kernel and the reference of
    [test_sigmoidal_cfun] compute the same value at every node [i]:
    [post] of the sum over [j] of [pre(X[i], X[j])]. *)
Theorem pre_post_kernel_matches_reference (X : array1) (i : nat) :
  Proper (Qeq ==> Qeq ==> Qeq) pre ->
  Proper (Qeq ==> Qeq) post ->
  (i < length X)%nat ->
  get1 (cg_pre_post X) i ==
    post (sum_over (length X) (fun j => pre (get1 X i) (get1 X j))) /\
  get1 (pre_post X) i ==
    post (sum_over (length X) (fun j => pre (get1 X i) (get1 X j))).
Proof.
  intros Hpre Hpost Hi. split.
  - unfold cg_pre_post, get1 at 1.
    rewrite (nth_map_in _ _ i 0%nat) by (rewrite length_seq; exact Hi).
    rewrite seq_nth by exact Hi. simpl.
    rewrite fold_left_accumulate.
    apply Hpost, accumulate_sum. intros j _. reflexivity.
  - unfold pre_post. cbv zeta. rewrite pre_post_matrix.
    set (M := map (fun v => map (fun u => pre u (v + 0 * u)) X) X).
    assert (HMrows : Forall (fun row => length row = length X) M).
    { apply Forall_forall. intros row Hrow. apply in_map_iff in Hrow.
      destruct Hrow as (v & <- & _). now rewrite length_map. }
    assert (Hhd : length (hd [] M) = length X).
    { unfold M. destruct X as [|x0 X']; [simpl in Hi; lia|].
      simpl. now rewrite length_map. }
    unfold get1 at 1.
    rewrite (nth_map_in _ _ i 0)
      by (unfold sum_rows; rewrite (length_sum_rows _ _ _ HMrows);
          rewrite ?repeat_length; lia).
    fold (get1 (sum_rows M) i). unfold sum_rows.
    rewrite (sum_rows_entry _ _ _ _ HMrows) by (rewrite ?repeat_length; lia).
    replace (get1 (repeat 0 (length (hd [] M))) i) with 0
      by (unfold get1; rewrite Hhd; symmetry; apply nth_repeat).
    unfold M. rewrite map_map.
    rewrite (map_over_indices _ X 0).
    apply Hpost, accumulate_sum. intros j _.
    unfold get1 at 1. rewrite (nth_map_in _ X i 0) by exact Hi.
    apply Hpre; [reflexivity|]. unfold get1. ring.
Qed.

End CfunFacts.

Lemma transpose_entry (n : nat) (weights : array2) (i j : nat) :
  shape n n weights -> (i < n)%nat -> (j < n)%nat ->
  get2 (transpose n weights) i j = get2 weights j i.
Proof.
  intros [Hlen _] Hi Hj. unfold transpose, get2 at 1.
  rewrite (nth_map_in _ _ i 0%nat) by (rewrite length_seq; exact Hi).
  rewrite seq_nth by exact Hi. simpl. unfold get1 at 1.
  rewrite (nth_map_in _ weights j []) by lia. reflexivity.
Qed.

(** *** The closed form *)

(** C3.  For a coupling function with pure [pre] and [post] expressions,
    a square weight matrix and a state array, the coupling computed at
    state variable [s] and target node [i] is
    [post (sum over the source nodes j of
           weights[j, i] * pre(X[s, i], X[s, j]))]:
    this is the value of the kernel called with [weights.T], and the value
    of the reference evaluator [_eval_cfun_no_delay] it is tested
    against. *)
Theorem coupling_closed_form (pre : Q -> Q -> Q) (post : Q -> Q)
    (weights X : array2) (nsvar nnode s i : nat) :
  Proper (Qeq ==> Qeq ==> Qeq) pre ->
  Proper (Qeq ==> Qeq) post ->
  shape nnode nnode weights ->
  shape nsvar nnode X ->
  (s < nsvar)%nat -> (i < nnode)%nat ->
  get2 (coupling_kernel pre post (transpose nnode weights) X) s i ==
    closed_form pre post weights X nnode s i /\
  get2 (_eval_cfun_no_delay pre post weights X) s i ==
    closed_form pre post weights X nnode s i.
Proof.
  intros Hpre Hpost Hw HX Hs Hi.
  assert (HsX : (s < length X)%nat) by (destruct HX; lia).
  pose proof (shape_row _ _ _ s HX Hs) as Hr.
  unfold closed_form. split.
  - rewrite (kernel_entry pre post _ _ nnode s i HsX Hr Hi).
    apply Hpost, accumulate_sum. intros j Hj.
    rewrite (transpose_entry _ _ i j Hw Hi Hj). reflexivity.
  - rewrite (eval_entry pre post _ _ nnode s i Hw HsX Hr Hi).
    apply Hpost, accumulate_sum. intros j Hj.
    apply Qmult_comp; [reflexivity|]. apply Hpre; ring.
Qed.

(** A difference coupling: [pre = x_j - x_i] and [post = 2 * gx]. *)
Definition difference_pre (x_i x_j : Q) : Q := x_j - x_i.
Definition doubling_post (gx : Q) : Q := 2 * gx.

Lemma difference_pre_proper : Proper (Qeq ==> Qeq ==> Qeq) difference_pre.
Proof. intros a b Hab c d Hcd. unfold difference_pre. rewrite Hab, Hcd. reflexivity. Qed.

Lemma doubling_post_proper : Proper (Qeq ==> Qeq) doubling_post.
Proof. intros a b Hab. unfold doubling_post. rewrite Hab. reflexivity. Qed.

Definition weights_2x2 : array2 := [[1; 2]; [3; 4]].
Definition state_1x2 : array2 := [[10; 20]].

Lemma coupling_closed_form_witness :
  get2 (coupling_kernel difference_pre doubling_post
          (transpose 2 weights_2x2) state_1x2) 0 1 ==
    closed_form difference_pre doubling_post weights_2x2 state_1x2 2 0 1 /\
  get2 (_eval_cfun_no_delay difference_pre doubling_post
          weights_2x2 state_1x2) 0 1 ==
    closed_form difference_pre doubling_post weights_2x2 state_1x2 2 0 1.
Proof.
  apply (coupling_closed_form difference_pre doubling_post
           weights_2x2 state_1x2 1 2 0 1
           difference_pre_proper doubling_post_proper).
  - split; [reflexivity | repeat constructor].
  - split; [reflexivity | repeat constructor].
  - lia.
  - lia.
Defined.

Lemma eval_cfun_no_delay_shape_witness :
  shape 1 2 (_eval_cfun_no_delay difference_pre doubling_post
               weights_2x2 state_1x2).
Proof.
  apply eval_cfun_no_delay_shape.
  - split; [reflexivity | repeat constructor].
  - split; [reflexivity | repeat constructor].
Defined.

Lemma pre_post_kernel_matches_reference_witness :
  get1 (cg_pre_post difference_pre doubling_post [10; 20; 40]) 1 ==
    doubling_post (sum_over 3 (fun j => difference_pre 20 (get1 [10; 20; 40] j))) /\
  get1 (pre_post difference_pre doubling_post [10; 20; 40]) 1 ==
    doubling_post (sum_over 3 (fun j => difference_pre 20 (get1 [10; 20; 40] j))).
Proof.
  apply (pre_post_kernel_matches_reference difference_pre doubling_post
           [10; 20; 40] 1 difference_pre_proper doubling_post_proper).
  simpl. lia.
Defined.

End Coupling.
